(** * Rutificador proxy: normalisation, extraction, mapping and the two-tier fetch

    A shallow embedding of [app.py].  Python [str] values are sequences of
    Unicode code points; the handlers run in a small monad that records which
    fetcher was called and carries the exceptions the code raises. *)

From Stdlib Require Import String Ascii DecimalNat DecimalString.
From Stdlib Require Import NArith ZArith Bool Arith Lia List.
Import ListNotations.

Set Warnings "-abstract-large-number".

(** ** Python strings *)

(** A character is a code point; [N] keeps the large ones cheap. *)
Definition char := N.
Definition pystr := list char.

(** An ASCII literal of the source as a [str]. *)
Definition py (s : string) : pystr := map N_of_ascii (list_ascii_of_string s).

Definition ch (a : ascii) : char := N_of_ascii a.

(** ** The Unicode tables behind [str.isdigit], [str.lower], [str.upper],
    [str.isspace] and the classes of [re] (Unicode 14.0, as CPython 3.11 ships it) *)
Module Unicode.

Open Scope N_scope.

Definition case_rule := (N * N * N * N)%type.

(** [str.isdigit]: the code points of numeric type Digit or Decimal, as closed intervals. *)
Definition digit_ranges : list (N * N) :=
  [ (0x30, 0x39); (0xB2, 0xB3); (0xB9, 0xB9); (0x660, 0x669); (0x6F0, 0x6F9); (0x7C0, 0x7C9);
    (0x966, 0x96F); (0x9E6, 0x9EF); (0xA66, 0xA6F); (0xAE6, 0xAEF); (0xB66, 0xB6F);
    (0xBE6, 0xBEF); (0xC66, 0xC6F); (0xCE6, 0xCEF); (0xD66, 0xD6F); (0xDE6, 0xDEF);
    (0xE50, 0xE59); (0xED0, 0xED9); (0xF20, 0xF29); (0x1040, 0x1049); (0x1090, 0x1099);
    (0x1369, 0x1371); (0x17E0, 0x17E9); (0x1810, 0x1819); (0x1946, 0x194F); (0x19D0, 0x19DA);
    (0x1A80, 0x1A89); (0x1A90, 0x1A99); (0x1B50, 0x1B59); (0x1BB0, 0x1BB9); (0x1C40, 0x1C49);
    (0x1C50, 0x1C59); (0x2070, 0x2070); (0x2074, 0x2079); (0x2080, 0x2089); (0x2460, 0x2468);
    (0x2474, 0x247C); (0x2488, 0x2490); (0x24EA, 0x24EA); (0x24F5, 0x24FD); (0x24FF, 0x24FF);
    (0x2776, 0x277E); (0x2780, 0x2788); (0x278A, 0x2792); (0xA620, 0xA629); (0xA8D0, 0xA8D9);
    (0xA900, 0xA909); (0xA9D0, 0xA9D9); (0xA9F0, 0xA9F9); (0xAA50, 0xAA59); (0xABF0, 0xABF9);
    (0xFF10, 0xFF19); (0x104A0, 0x104A9); (0x10A40, 0x10A43); (0x10D30, 0x10D39);
    (0x10E60, 0x10E68); (0x11052, 0x1105A); (0x11066, 0x1106F); (0x110F0, 0x110F9);
    (0x11136, 0x1113F); (0x111D0, 0x111D9); (0x112F0, 0x112F9); (0x11450, 0x11459);
    (0x114D0, 0x114D9); (0x11650, 0x11659); (0x116C0, 0x116C9); (0x11730, 0x11739);
    (0x118E0, 0x118E9); (0x11950, 0x11959); (0x11C50, 0x11C59); (0x11D50, 0x11D59);
    (0x11DA0, 0x11DA9); (0x16A60, 0x16A69); (0x16AC0, 0x16AC9); (0x16B50, 0x16B59);
    (0x1D7CE, 0x1D7FF); (0x1E140, 0x1E149); (0x1E2F0, 0x1E2F9); (0x1E950, 0x1E959);
    (0x1F100, 0x1F10A); (0x1FBF0, 0x1FBF9) ].

(** [str.isdecimal], which is also the class [\d] of [re] on [str] patterns: general category Nd. *)
Definition decimal_ranges : list (N * N) :=
  [ (0x30, 0x39); (0x660, 0x669); (0x6F0, 0x6F9); (0x7C0, 0x7C9); (0x966, 0x96F); (0x9E6, 0x9EF);
    (0xA66, 0xA6F); (0xAE6, 0xAEF); (0xB66, 0xB6F); (0xBE6, 0xBEF); (0xC66, 0xC6F);
    (0xCE6, 0xCEF); (0xD66, 0xD6F); (0xDE6, 0xDEF); (0xE50, 0xE59); (0xED0, 0xED9);
    (0xF20, 0xF29); (0x1040, 0x1049); (0x1090, 0x1099); (0x17E0, 0x17E9); (0x1810, 0x1819);
    (0x1946, 0x194F); (0x19D0, 0x19D9); (0x1A80, 0x1A89); (0x1A90, 0x1A99); (0x1B50, 0x1B59);
    (0x1BB0, 0x1BB9); (0x1C40, 0x1C49); (0x1C50, 0x1C59); (0xA620, 0xA629); (0xA8D0, 0xA8D9);
    (0xA900, 0xA909); (0xA9D0, 0xA9D9); (0xA9F0, 0xA9F9); (0xAA50, 0xAA59); (0xABF0, 0xABF9);
    (0xFF10, 0xFF19); (0x104A0, 0x104A9); (0x10D30, 0x10D39); (0x11066, 0x1106F);
    (0x110F0, 0x110F9); (0x11136, 0x1113F); (0x111D0, 0x111D9); (0x112F0, 0x112F9);
    (0x11450, 0x11459); (0x114D0, 0x114D9); (0x11650, 0x11659); (0x116C0, 0x116C9);
    (0x11730, 0x11739); (0x118E0, 0x118E9); (0x11950, 0x11959); (0x11C50, 0x11C59);
    (0x11D50, 0x11D59); (0x11DA0, 0x11DA9); (0x16A60, 0x16A69); (0x16AC0, 0x16AC9);
    (0x16B50, 0x16B59); (0x1D7CE, 0x1D7FF); (0x1E140, 0x1E149); (0x1E2F0, 0x1E2F9);
    (0x1E950, 0x1E959); (0x1FBF0, 0x1FBF9) ].

(** [str.isspace], which is also the class [\s] of [re] and the set [str.strip] removes. *)
Definition space_ranges : list (N * N) :=
  [ (0x9, 0xD); (0x1C, 0x20); (0x85, 0x85); (0xA0, 0xA0); (0x1680, 0x1680); (0x2000, 0x200A);
    (0x2028, 0x2029); (0x202F, 0x202F); (0x205F, 0x205F); (0x3000, 0x3000) ].

(** Simple lower-case mapping: [(lo, hi, step, img)] sends [lo], [lo + step], ..., up to [hi], to [img], [img + step], ... *)
Definition lower_rules : list case_rule :=
  [ (0x41, 0x5A, 1, 0x61); (0xC0, 0xD6, 1, 0xE0); (0xD8, 0xDE, 1, 0xF8); (0x100, 0x12E, 2, 0x101);
    (0x130, 0x130, 1, 0x69); (0x132, 0x136, 2, 0x133); (0x139, 0x147, 2, 0x13A);
    (0x14A, 0x176, 2, 0x14B); (0x178, 0x178, 1, 0xFF); (0x179, 0x17D, 2, 0x17A);
    (0x181, 0x181, 1, 0x253); (0x182, 0x184, 2, 0x183); (0x186, 0x186, 1, 0x254);
    (0x187, 0x187, 1, 0x188); (0x189, 0x18A, 1, 0x256); (0x18B, 0x18B, 1, 0x18C);
    (0x18E, 0x18E, 1, 0x1DD); (0x18F, 0x18F, 1, 0x259); (0x190, 0x190, 1, 0x25B);
    (0x191, 0x191, 1, 0x192); (0x193, 0x193, 1, 0x260); (0x194, 0x194, 1, 0x263);
    (0x196, 0x196, 1, 0x269); (0x197, 0x197, 1, 0x268); (0x198, 0x198, 1, 0x199);
    (0x19C, 0x19C, 1, 0x26F); (0x19D, 0x19D, 1, 0x272); (0x19F, 0x19F, 1, 0x275);
    (0x1A0, 0x1A4, 2, 0x1A1); (0x1A6, 0x1A6, 1, 0x280); (0x1A7, 0x1A7, 1, 0x1A8);
    (0x1A9, 0x1A9, 1, 0x283); (0x1AC, 0x1AC, 1, 0x1AD); (0x1AE, 0x1AE, 1, 0x288);
    (0x1AF, 0x1AF, 1, 0x1B0); (0x1B1, 0x1B2, 1, 0x28A); (0x1B3, 0x1B5, 2, 0x1B4);
    (0x1B7, 0x1B7, 1, 0x292); (0x1B8, 0x1B8, 1, 0x1B9); (0x1BC, 0x1BC, 1, 0x1BD);
    (0x1C4, 0x1C4, 1, 0x1C6); (0x1C5, 0x1C5, 1, 0x1C6); (0x1C7, 0x1C7, 1, 0x1C9);
    (0x1C8, 0x1C8, 1, 0x1C9); (0x1CA, 0x1CA, 1, 0x1CC); (0x1CB, 0x1DB, 2, 0x1CC);
    (0x1DE, 0x1EE, 2, 0x1DF); (0x1F1, 0x1F1, 1, 0x1F3); (0x1F2, 0x1F4, 2, 0x1F3);
    (0x1F6, 0x1F6, 1, 0x195); (0x1F7, 0x1F7, 1, 0x1BF); (0x1F8, 0x21E, 2, 0x1F9);
    (0x220, 0x220, 1, 0x19E); (0x222, 0x232, 2, 0x223); (0x23A, 0x23A, 1, 0x2C65);
    (0x23B, 0x23B, 1, 0x23C); (0x23D, 0x23D, 1, 0x19A); (0x23E, 0x23E, 1, 0x2C66);
    (0x241, 0x241, 1, 0x242); (0x243, 0x243, 1, 0x180); (0x244, 0x244, 1, 0x289);
    (0x245, 0x245, 1, 0x28C); (0x246, 0x24E, 2, 0x247); (0x370, 0x372, 2, 0x371);
    (0x376, 0x376, 1, 0x377); (0x37F, 0x37F, 1, 0x3F3); (0x386, 0x386, 1, 0x3AC);
    (0x388, 0x38A, 1, 0x3AD); (0x38C, 0x38C, 1, 0x3CC); (0x38E, 0x38F, 1, 0x3CD);
    (0x391, 0x3A1, 1, 0x3B1); (0x3A3, 0x3AB, 1, 0x3C3); (0x3CF, 0x3CF, 1, 0x3D7);
    (0x3D8, 0x3EE, 2, 0x3D9); (0x3F4, 0x3F4, 1, 0x3B8); (0x3F7, 0x3F7, 1, 0x3F8);
    (0x3F9, 0x3F9, 1, 0x3F2); (0x3FA, 0x3FA, 1, 0x3FB); (0x3FD, 0x3FF, 1, 0x37B);
    (0x400, 0x40F, 1, 0x450); (0x410, 0x42F, 1, 0x430); (0x460, 0x480, 2, 0x461);
    (0x48A, 0x4BE, 2, 0x48B); (0x4C0, 0x4C0, 1, 0x4CF); (0x4C1, 0x4CD, 2, 0x4C2);
    (0x4D0, 0x52E, 2, 0x4D1); (0x531, 0x556, 1, 0x561); (0x10A0, 0x10C5, 1, 0x2D00);
    (0x10C7, 0x10C7, 1, 0x2D27); (0x10CD, 0x10CD, 1, 0x2D2D); (0x13A0, 0x13EF, 1, 0xAB70);
    (0x13F0, 0x13F5, 1, 0x13F8); (0x1C90, 0x1CBA, 1, 0x10D0); (0x1CBD, 0x1CBF, 1, 0x10FD);
    (0x1E00, 0x1E94, 2, 0x1E01); (0x1E9E, 0x1E9E, 1, 0xDF); (0x1EA0, 0x1EFE, 2, 0x1EA1);
    (0x1F08, 0x1F0F, 1, 0x1F00); (0x1F18, 0x1F1D, 1, 0x1F10); (0x1F28, 0x1F2F, 1, 0x1F20);
    (0x1F38, 0x1F3F, 1, 0x1F30); (0x1F48, 0x1F4D, 1, 0x1F40); (0x1F59, 0x1F5F, 2, 0x1F51);
    (0x1F68, 0x1F6F, 1, 0x1F60); (0x1F88, 0x1F8F, 1, 0x1F80); (0x1F98, 0x1F9F, 1, 0x1F90);
    (0x1FA8, 0x1FAF, 1, 0x1FA0); (0x1FB8, 0x1FB9, 1, 0x1FB0); (0x1FBA, 0x1FBB, 1, 0x1F70);
    (0x1FBC, 0x1FBC, 1, 0x1FB3); (0x1FC8, 0x1FCB, 1, 0x1F72); (0x1FCC, 0x1FCC, 1, 0x1FC3);
    (0x1FD8, 0x1FD9, 1, 0x1FD0); (0x1FDA, 0x1FDB, 1, 0x1F76); (0x1FE8, 0x1FE9, 1, 0x1FE0);
    (0x1FEA, 0x1FEB, 1, 0x1F7A); (0x1FEC, 0x1FEC, 1, 0x1FE5); (0x1FF8, 0x1FF9, 1, 0x1F78);
    (0x1FFA, 0x1FFB, 1, 0x1F7C); (0x1FFC, 0x1FFC, 1, 0x1FF3); (0x2126, 0x2126, 1, 0x3C9);
    (0x212A, 0x212A, 1, 0x6B); (0x212B, 0x212B, 1, 0xE5); (0x2132, 0x2132, 1, 0x214E);
    (0x2160, 0x216F, 1, 0x2170); (0x2183, 0x2183, 1, 0x2184); (0x24B6, 0x24CF, 1, 0x24D0);
    (0x2C00, 0x2C2F, 1, 0x2C30); (0x2C60, 0x2C60, 1, 0x2C61); (0x2C62, 0x2C62, 1, 0x26B);
    (0x2C63, 0x2C63, 1, 0x1D7D); (0x2C64, 0x2C64, 1, 0x27D); (0x2C67, 0x2C6B, 2, 0x2C68);
    (0x2C6D, 0x2C6D, 1, 0x251); (0x2C6E, 0x2C6E, 1, 0x271); (0x2C6F, 0x2C6F, 1, 0x250);
    (0x2C70, 0x2C70, 1, 0x252); (0x2C72, 0x2C72, 1, 0x2C73); (0x2C75, 0x2C75, 1, 0x2C76);
    (0x2C7E, 0x2C7F, 1, 0x23F); (0x2C80, 0x2CE2, 2, 0x2C81); (0x2CEB, 0x2CED, 2, 0x2CEC);
    (0x2CF2, 0x2CF2, 1, 0x2CF3); (0xA640, 0xA66C, 2, 0xA641); (0xA680, 0xA69A, 2, 0xA681);
    (0xA722, 0xA72E, 2, 0xA723); (0xA732, 0xA76E, 2, 0xA733); (0xA779, 0xA77B, 2, 0xA77A);
    (0xA77D, 0xA77D, 1, 0x1D79); (0xA77E, 0xA786, 2, 0xA77F); (0xA78B, 0xA78B, 1, 0xA78C);
    (0xA78D, 0xA78D, 1, 0x265); (0xA790, 0xA792, 2, 0xA791); (0xA796, 0xA7A8, 2, 0xA797);
    (0xA7AA, 0xA7AA, 1, 0x266); (0xA7AB, 0xA7AB, 1, 0x25C); (0xA7AC, 0xA7AC, 1, 0x261);
    (0xA7AD, 0xA7AD, 1, 0x26C); (0xA7AE, 0xA7AE, 1, 0x26A); (0xA7B0, 0xA7B0, 1, 0x29E);
    (0xA7B1, 0xA7B1, 1, 0x287); (0xA7B2, 0xA7B2, 1, 0x29D); (0xA7B3, 0xA7B3, 1, 0xAB53);
    (0xA7B4, 0xA7C2, 2, 0xA7B5); (0xA7C4, 0xA7C4, 1, 0xA794); (0xA7C5, 0xA7C5, 1, 0x282);
    (0xA7C6, 0xA7C6, 1, 0x1D8E); (0xA7C7, 0xA7C9, 2, 0xA7C8); (0xA7D0, 0xA7D0, 1, 0xA7D1);
    (0xA7D6, 0xA7D8, 2, 0xA7D7); (0xA7F5, 0xA7F5, 1, 0xA7F6); (0xFF21, 0xFF3A, 1, 0xFF41);
    (0x10400, 0x10427, 1, 0x10428); (0x104B0, 0x104D3, 1, 0x104D8);
    (0x10570, 0x1057A, 1, 0x10597); (0x1057C, 0x1058A, 1, 0x105A3);
    (0x1058C, 0x10592, 1, 0x105B3); (0x10594, 0x10595, 1, 0x105BB);
    (0x10C80, 0x10CB2, 1, 0x10CC0); (0x118A0, 0x118BF, 1, 0x118C0);
    (0x16E40, 0x16E5F, 1, 0x16E60); (0x1E900, 0x1E921, 1, 0x1E922) ].

(** Upper-case mapping of the code points whose upper case is one code point. *)
Definition upper_rules : list case_rule :=
  [ (0x61, 0x7A, 1, 0x41); (0xB5, 0xB5, 1, 0x39C); (0xE0, 0xF6, 1, 0xC0); (0xF8, 0xFE, 1, 0xD8);
    (0xFF, 0xFF, 1, 0x178); (0x101, 0x12F, 2, 0x100); (0x131, 0x131, 1, 0x49);
    (0x133, 0x137, 2, 0x132); (0x13A, 0x148, 2, 0x139); (0x14B, 0x177, 2, 0x14A);
    (0x17A, 0x17E, 2, 0x179); (0x17F, 0x17F, 1, 0x53); (0x180, 0x180, 1, 0x243);
    (0x183, 0x185, 2, 0x182); (0x188, 0x188, 1, 0x187); (0x18C, 0x18C, 1, 0x18B);
    (0x192, 0x192, 1, 0x191); (0x195, 0x195, 1, 0x1F6); (0x199, 0x199, 1, 0x198);
    (0x19A, 0x19A, 1, 0x23D); (0x19E, 0x19E, 1, 0x220); (0x1A1, 0x1A5, 2, 0x1A0);
    (0x1A8, 0x1A8, 1, 0x1A7); (0x1AD, 0x1AD, 1, 0x1AC); (0x1B0, 0x1B0, 1, 0x1AF);
    (0x1B4, 0x1B6, 2, 0x1B3); (0x1B9, 0x1B9, 1, 0x1B8); (0x1BD, 0x1BD, 1, 0x1BC);
    (0x1BF, 0x1BF, 1, 0x1F7); (0x1C5, 0x1C5, 1, 0x1C4); (0x1C6, 0x1C6, 1, 0x1C4);
    (0x1C8, 0x1C8, 1, 0x1C7); (0x1C9, 0x1C9, 1, 0x1C7); (0x1CB, 0x1CB, 1, 0x1CA);
    (0x1CC, 0x1CC, 1, 0x1CA); (0x1CE, 0x1DC, 2, 0x1CD); (0x1DD, 0x1DD, 1, 0x18E);
    (0x1DF, 0x1EF, 2, 0x1DE); (0x1F2, 0x1F2, 1, 0x1F1); (0x1F3, 0x1F3, 1, 0x1F1);
    (0x1F5, 0x1F5, 1, 0x1F4); (0x1F9, 0x21F, 2, 0x1F8); (0x223, 0x233, 2, 0x222);
    (0x23C, 0x23C, 1, 0x23B); (0x23F, 0x240, 1, 0x2C7E); (0x242, 0x242, 1, 0x241);
    (0x247, 0x24F, 2, 0x246); (0x250, 0x250, 1, 0x2C6F); (0x251, 0x251, 1, 0x2C6D);
    (0x252, 0x252, 1, 0x2C70); (0x253, 0x253, 1, 0x181); (0x254, 0x254, 1, 0x186);
    (0x256, 0x257, 1, 0x189); (0x259, 0x259, 1, 0x18F); (0x25B, 0x25B, 1, 0x190);
    (0x25C, 0x25C, 1, 0xA7AB); (0x260, 0x260, 1, 0x193); (0x261, 0x261, 1, 0xA7AC);
    (0x263, 0x263, 1, 0x194); (0x265, 0x265, 1, 0xA78D); (0x266, 0x266, 1, 0xA7AA);
    (0x268, 0x268, 1, 0x197); (0x269, 0x269, 1, 0x196); (0x26A, 0x26A, 1, 0xA7AE);
    (0x26B, 0x26B, 1, 0x2C62); (0x26C, 0x26C, 1, 0xA7AD); (0x26F, 0x26F, 1, 0x19C);
    (0x271, 0x271, 1, 0x2C6E); (0x272, 0x272, 1, 0x19D); (0x275, 0x275, 1, 0x19F);
    (0x27D, 0x27D, 1, 0x2C64); (0x280, 0x280, 1, 0x1A6); (0x282, 0x282, 1, 0xA7C5);
    (0x283, 0x283, 1, 0x1A9); (0x287, 0x287, 1, 0xA7B1); (0x288, 0x288, 1, 0x1AE);
    (0x289, 0x289, 1, 0x244); (0x28A, 0x28B, 1, 0x1B1); (0x28C, 0x28C, 1, 0x245);
    (0x292, 0x292, 1, 0x1B7); (0x29D, 0x29D, 1, 0xA7B2); (0x29E, 0x29E, 1, 0xA7B0);
    (0x345, 0x345, 1, 0x399); (0x371, 0x373, 2, 0x370); (0x377, 0x377, 1, 0x376);
    (0x37B, 0x37D, 1, 0x3FD); (0x3AC, 0x3AC, 1, 0x386); (0x3AD, 0x3AF, 1, 0x388);
    (0x3B1, 0x3C1, 1, 0x391); (0x3C2, 0x3C2, 1, 0x3A3); (0x3C3, 0x3CB, 1, 0x3A3);
    (0x3CC, 0x3CC, 1, 0x38C); (0x3CD, 0x3CE, 1, 0x38E); (0x3D0, 0x3D0, 1, 0x392);
    (0x3D1, 0x3D1, 1, 0x398); (0x3D5, 0x3D5, 1, 0x3A6); (0x3D6, 0x3D6, 1, 0x3A0);
    (0x3D7, 0x3D7, 1, 0x3CF); (0x3D9, 0x3EF, 2, 0x3D8); (0x3F0, 0x3F0, 1, 0x39A);
    (0x3F1, 0x3F1, 1, 0x3A1); (0x3F2, 0x3F2, 1, 0x3F9); (0x3F3, 0x3F3, 1, 0x37F);
    (0x3F5, 0x3F5, 1, 0x395); (0x3F8, 0x3F8, 1, 0x3F7); (0x3FB, 0x3FB, 1, 0x3FA);
    (0x430, 0x44F, 1, 0x410); (0x450, 0x45F, 1, 0x400); (0x461, 0x481, 2, 0x460);
    (0x48B, 0x4BF, 2, 0x48A); (0x4C2, 0x4CE, 2, 0x4C1); (0x4CF, 0x4CF, 1, 0x4C0);
    (0x4D1, 0x52F, 2, 0x4D0); (0x561, 0x586, 1, 0x531); (0x10D0, 0x10FA, 1, 0x1C90);
    (0x10FD, 0x10FF, 1, 0x1CBD); (0x13F8, 0x13FD, 1, 0x13F0); (0x1C80, 0x1C80, 1, 0x412);
    (0x1C81, 0x1C81, 1, 0x414); (0x1C82, 0x1C82, 1, 0x41E); (0x1C83, 0x1C84, 1, 0x421);
    (0x1C85, 0x1C85, 1, 0x422); (0x1C86, 0x1C86, 1, 0x42A); (0x1C87, 0x1C87, 1, 0x462);
    (0x1C88, 0x1C88, 1, 0xA64A); (0x1D79, 0x1D79, 1, 0xA77D); (0x1D7D, 0x1D7D, 1, 0x2C63);
    (0x1D8E, 0x1D8E, 1, 0xA7C6); (0x1E01, 0x1E95, 2, 0x1E00); (0x1E9B, 0x1E9B, 1, 0x1E60);
    (0x1EA1, 0x1EFF, 2, 0x1EA0); (0x1F00, 0x1F07, 1, 0x1F08); (0x1F10, 0x1F15, 1, 0x1F18);
    (0x1F20, 0x1F27, 1, 0x1F28); (0x1F30, 0x1F37, 1, 0x1F38); (0x1F40, 0x1F45, 1, 0x1F48);
    (0x1F51, 0x1F57, 2, 0x1F59); (0x1F60, 0x1F67, 1, 0x1F68); (0x1F70, 0x1F71, 1, 0x1FBA);
    (0x1F72, 0x1F75, 1, 0x1FC8); (0x1F76, 0x1F77, 1, 0x1FDA); (0x1F78, 0x1F79, 1, 0x1FF8);
    (0x1F7A, 0x1F7B, 1, 0x1FEA); (0x1F7C, 0x1F7D, 1, 0x1FFA); (0x1FB0, 0x1FB1, 1, 0x1FB8);
    (0x1FBE, 0x1FBE, 1, 0x399); (0x1FD0, 0x1FD1, 1, 0x1FD8); (0x1FE0, 0x1FE1, 1, 0x1FE8);
    (0x1FE5, 0x1FE5, 1, 0x1FEC); (0x214E, 0x214E, 1, 0x2132); (0x2170, 0x217F, 1, 0x2160);
    (0x2184, 0x2184, 1, 0x2183); (0x24D0, 0x24E9, 1, 0x24B6); (0x2C30, 0x2C5F, 1, 0x2C00);
    (0x2C61, 0x2C61, 1, 0x2C60); (0x2C65, 0x2C65, 1, 0x23A); (0x2C66, 0x2C66, 1, 0x23E);
    (0x2C68, 0x2C6C, 2, 0x2C67); (0x2C73, 0x2C73, 1, 0x2C72); (0x2C76, 0x2C76, 1, 0x2C75);
    (0x2C81, 0x2CE3, 2, 0x2C80); (0x2CEC, 0x2CEE, 2, 0x2CEB); (0x2CF3, 0x2CF3, 1, 0x2CF2);
    (0x2D00, 0x2D25, 1, 0x10A0); (0x2D27, 0x2D27, 1, 0x10C7); (0x2D2D, 0x2D2D, 1, 0x10CD);
    (0xA641, 0xA66D, 2, 0xA640); (0xA681, 0xA69B, 2, 0xA680); (0xA723, 0xA72F, 2, 0xA722);
    (0xA733, 0xA76F, 2, 0xA732); (0xA77A, 0xA77C, 2, 0xA779); (0xA77F, 0xA787, 2, 0xA77E);
    (0xA78C, 0xA78C, 1, 0xA78B); (0xA791, 0xA793, 2, 0xA790); (0xA794, 0xA794, 1, 0xA7C4);
    (0xA797, 0xA7A9, 2, 0xA796); (0xA7B5, 0xA7C3, 2, 0xA7B4); (0xA7C8, 0xA7CA, 2, 0xA7C7);
    (0xA7D1, 0xA7D1, 1, 0xA7D0); (0xA7D7, 0xA7D9, 2, 0xA7D6); (0xA7F6, 0xA7F6, 1, 0xA7F5);
    (0xAB53, 0xAB53, 1, 0xA7B3); (0xAB70, 0xABBF, 1, 0x13A0); (0xFF41, 0xFF5A, 1, 0xFF21);
    (0x10428, 0x1044F, 1, 0x10400); (0x104D8, 0x104FB, 1, 0x104B0);
    (0x10597, 0x105A1, 1, 0x10570); (0x105A3, 0x105B1, 1, 0x1057C);
    (0x105B3, 0x105B9, 1, 0x1058C); (0x105BB, 0x105BC, 1, 0x10594);
    (0x10CC0, 0x10CF2, 1, 0x10C80); (0x118C0, 0x118DF, 1, 0x118A0);
    (0x16E60, 0x16E7F, 1, 0x16E40); (0x1E922, 0x1E943, 1, 0x1E900) ].

(** The code points whose upper case is several code points (SpecialCasing). *)
Definition upper_special : list (N * list N) :=
  [ (0xDF, [0x53; 0x53]); (0x149, [0x2BC; 0x4E]); (0x1F0, [0x4A; 0x30C]);
    (0x390, [0x399; 0x308; 0x301]); (0x3B0, [0x3A5; 0x308; 0x301]); (0x587, [0x535; 0x552]);
    (0x1E96, [0x48; 0x331]); (0x1E97, [0x54; 0x308]); (0x1E98, [0x57; 0x30A]);
    (0x1E99, [0x59; 0x30A]); (0x1E9A, [0x41; 0x2BE]); (0x1F50, [0x3A5; 0x313]);
    (0x1F52, [0x3A5; 0x313; 0x300]); (0x1F54, [0x3A5; 0x313; 0x301]);
    (0x1F56, [0x3A5; 0x313; 0x342]); (0x1F80, [0x1F08; 0x399]); (0x1F81, [0x1F09; 0x399]);
    (0x1F82, [0x1F0A; 0x399]); (0x1F83, [0x1F0B; 0x399]); (0x1F84, [0x1F0C; 0x399]);
    (0x1F85, [0x1F0D; 0x399]); (0x1F86, [0x1F0E; 0x399]); (0x1F87, [0x1F0F; 0x399]);
    (0x1F88, [0x1F08; 0x399]); (0x1F89, [0x1F09; 0x399]); (0x1F8A, [0x1F0A; 0x399]);
    (0x1F8B, [0x1F0B; 0x399]); (0x1F8C, [0x1F0C; 0x399]); (0x1F8D, [0x1F0D; 0x399]);
    (0x1F8E, [0x1F0E; 0x399]); (0x1F8F, [0x1F0F; 0x399]); (0x1F90, [0x1F28; 0x399]);
    (0x1F91, [0x1F29; 0x399]); (0x1F92, [0x1F2A; 0x399]); (0x1F93, [0x1F2B; 0x399]);
    (0x1F94, [0x1F2C; 0x399]); (0x1F95, [0x1F2D; 0x399]); (0x1F96, [0x1F2E; 0x399]);
    (0x1F97, [0x1F2F; 0x399]); (0x1F98, [0x1F28; 0x399]); (0x1F99, [0x1F29; 0x399]);
    (0x1F9A, [0x1F2A; 0x399]); (0x1F9B, [0x1F2B; 0x399]); (0x1F9C, [0x1F2C; 0x399]);
    (0x1F9D, [0x1F2D; 0x399]); (0x1F9E, [0x1F2E; 0x399]); (0x1F9F, [0x1F2F; 0x399]);
    (0x1FA0, [0x1F68; 0x399]); (0x1FA1, [0x1F69; 0x399]); (0x1FA2, [0x1F6A; 0x399]);
    (0x1FA3, [0x1F6B; 0x399]); (0x1FA4, [0x1F6C; 0x399]); (0x1FA5, [0x1F6D; 0x399]);
    (0x1FA6, [0x1F6E; 0x399]); (0x1FA7, [0x1F6F; 0x399]); (0x1FA8, [0x1F68; 0x399]);
    (0x1FA9, [0x1F69; 0x399]); (0x1FAA, [0x1F6A; 0x399]); (0x1FAB, [0x1F6B; 0x399]);
    (0x1FAC, [0x1F6C; 0x399]); (0x1FAD, [0x1F6D; 0x399]); (0x1FAE, [0x1F6E; 0x399]);
    (0x1FAF, [0x1F6F; 0x399]); (0x1FB2, [0x1FBA; 0x399]); (0x1FB3, [0x391; 0x399]);
    (0x1FB4, [0x386; 0x399]); (0x1FB6, [0x391; 0x342]); (0x1FB7, [0x391; 0x342; 0x399]);
    (0x1FBC, [0x391; 0x399]); (0x1FC2, [0x1FCA; 0x399]); (0x1FC3, [0x397; 0x399]);
    (0x1FC4, [0x389; 0x399]); (0x1FC6, [0x397; 0x342]); (0x1FC7, [0x397; 0x342; 0x399]);
    (0x1FCC, [0x397; 0x399]); (0x1FD2, [0x399; 0x308; 0x300]); (0x1FD3, [0x399; 0x308; 0x301]);
    (0x1FD6, [0x399; 0x342]); (0x1FD7, [0x399; 0x308; 0x342]); (0x1FE2, [0x3A5; 0x308; 0x300]);
    (0x1FE3, [0x3A5; 0x308; 0x301]); (0x1FE4, [0x3A1; 0x313]); (0x1FE6, [0x3A5; 0x342]);
    (0x1FE7, [0x3A5; 0x308; 0x342]); (0x1FF2, [0x1FFA; 0x399]); (0x1FF3, [0x3A9; 0x399]);
    (0x1FF4, [0x38F; 0x399]); (0x1FF6, [0x3A9; 0x342]); (0x1FF7, [0x3A9; 0x342; 0x399]);
    (0x1FFC, [0x3A9; 0x399]); (0xFB00, [0x46; 0x46]); (0xFB01, [0x46; 0x49]);
    (0xFB02, [0x46; 0x4C]); (0xFB03, [0x46; 0x46; 0x49]); (0xFB04, [0x46; 0x46; 0x4C]);
    (0xFB05, [0x53; 0x54]); (0xFB06, [0x53; 0x54]); (0xFB13, [0x544; 0x546]);
    (0xFB14, [0x544; 0x535]); (0xFB15, [0x544; 0x53B]); (0xFB16, [0x54E; 0x546]);
    (0xFB17, [0x544; 0x53D]) ].

Definition in_range (c : char) (r : N * N) : bool :=
  (fst r <=? c) && (c <=? snd r).

Definition in_ranges (rs : list (N * N)) (c : char) : bool :=
  existsb (in_range c) rs.

Definition isdigit : char -> bool := in_ranges digit_ranges.
Definition isdecimal : char -> bool := in_ranges decimal_ranges.
Definition isspace : char -> bool := in_ranges space_ranges.

Definition rule_image (c : char) (r : case_rule) : option char :=
  let '(lo, hi, step, img) := r in
  if (lo <=? c) && (c <=? hi) && ((c - lo) mod step =? 0)
  then Some (img + (c - lo)) else None.

Fixpoint lookup_rule (rs : list case_rule) (c : char) : option char :=
  match rs with
  | [] => None
  | r :: rs' =>
      match rule_image c r with
      | Some d => Some d
      | None => lookup_rule rs' c
      end
  end.

(** The simple (one code point) lower-case mapping; [re.IGNORECASE] compares
    characters through it. *)
Definition tolower (c : char) : char :=
  match lookup_rule lower_rules c with Some d => d | None => c end.

(** [str.lower] on one character.  U+0130 is the only code point whose lower
    case is two code points.  For U+03A3 CPython picks U+03C2 in word-final
    position and U+03C3 elsewhere, by a context rule over its casing tables;
    [final] stands for that decision. *)
Definition lower_char (final : bool) (c : char) : pystr :=
  if c =? 0x3A3 then [if final then 0x3C2 else 0x3C3]
  else if c =? 0x130 then [0x69; 0x307]
  else [tolower c].

Fixpoint lookup_special (t : list (N * list N)) (c : char) : option pystr :=
  match t with
  | [] => None
  | (k, v) :: t' => if k =? c then Some v else lookup_special t' c
  end.

(** [str.upper] on one character. *)
Definition upper_char (c : char) : pystr :=
  match lookup_special upper_special c with
  | Some v => v
  | None => match lookup_rule upper_rules c with Some d => [d] | None => [c] end
  end.

End Unicode.

(** ** The [str] and [list] operations the program uses *)

(** [s.lower()]; the sigma decision is taken as non-final everywhere, and
    [kept_sigma_free] below shows [format_rut_lenient] cannot see it. *)
Definition str_lower (s : pystr) : pystr := flat_map (Unicode.lower_char false) s.

Definition str_upper (s : pystr) : pystr := flat_map Unicode.upper_char s.

(** [l[i:j]] for [0 <= i], [0 <= j]. *)
Definition slice {A} (l : list A) (i j : nat) : list A := firstn (j - i) (skipn i l).

(** [s[:-1]] and [s[-1]] (the latter as a one-character [str]; on [""] it
    raises, and the program only takes it when [len(s) >= 2]). *)
Definition all_but_last {A} (l : list A) : list A := firstn (length l - 1) l.
Definition last_char {A} (l : list A) : list A := skipn (length l - 1) l.

(** [l[::-1]] *)
Definition reversed {A} (l : list A) : list A := rev l.

(** [range(start, stop, step)] for a positive step. *)
Fixpoint range_from (fuel start stop step : nat) : list nat :=
  match fuel with
  | O => []
  | S fuel' =>
      if start <? stop then start :: range_from fuel' (start + step) stop step else []
  end.

Definition range (start stop step : nat) : list nat :=
  range_from (stop - start) start stop step.

(** [sep.join(parts)] *)
Fixpoint join (sep : pystr) (parts : list pystr) : pystr :=
  match parts with
  | [] => []
  | [p] => p
  | p :: rest => p ++ sep ++ join sep rest
  end.

Definition is_empty {A} (l : list A) : bool :=
  match l with [] => true | _ => false end.

(** [s.strip()] *)
Fixpoint lstrip (s : pystr) : pystr :=
  match s with
  | c :: s' => if Unicode.isspace c then lstrip s' else s
  | [] => []
  end.

Definition strip (s : pystr) : pystr := rev (lstrip (rev (lstrip s))).

(** [s.replace(old, new)] for a one-character [old]. *)
Definition replace_char (old : char) (new : pystr) (s : pystr) : pystr :=
  flat_map (fun c => if (c =? old)%N then new else [c]) s.

Fixpoint str_eqb (a b : pystr) : bool :=
  match a, b with
  | [], [] => true
  | x :: a', y :: b' => (x =? y)%N && str_eqb a' b'
  | _, _ => false
  end.

(** [str(n)] for a non-negative [int]. *)
Definition str_of_nat (n : nat) : pystr := py (NilEmpty.string_of_uint (Nat.to_uint n)).

(** [enumerate(l)] *)
Definition enumerate {A} (l : list A) : list (nat * A) := combine (seq 0 (length l)) l.

(** ** The fragment of [re] the program uses

    A pattern is a sequence of single-character items, starred character
    classes (greedy or lazy) and the parentheses of group 1.  Matching is the
    backtracking search of [re]: alternatives are tried in priority order and
    the first success wins. *)
Module Re.

Inductive node :=
| One (p : char -> bool)
| Star (greedy : bool) (p : char -> bool)
| GroupOpen
| GroupClose.

Definition pattern := list node.

Record span := { m_start : nat; m_end : nat; g_start : nat; g_end : nat }.

(** A literal character, and a literal under [re.IGNORECASE]. *)
Definition lit (a : ascii) : node := One (N.eqb (ch a)).
Definition lit_i (a : ascii) : node :=
  One (fun c => (Unicode.tolower c =? Unicode.tolower (ch a))%N).

Definition any_char (c : char) : bool := true.
Definition not_gt (c : char) : bool := negb (c =? ch ">")%N.

(** Match [r] against the suffix [s], which starts at index [pos]; [gs] and
    [ge] are the bounds of group 1 seen so far.  Returns the end of the match
    and the bounds of group 1. *)
Fixpoint match_here (r : pattern) : pystr -> nat -> nat -> nat -> option (nat * nat * nat) :=
  match r with
  | [] => fun _ pos gs ge => Some (pos, gs, ge)
  | One p :: r' =>
      fun s pos gs ge =>
        match s with
        | c :: s' => if p c then match_here r' s' (S pos) gs ge else None
        | [] => None
        end
  | GroupOpen :: r' => fun s pos _ ge => match_here r' s pos pos ge
  | GroupClose :: r' => fun s pos gs _ => match_here r' s pos gs pos
  | Star true p :: r' =>
      fix greedy (s : pystr) (pos gs ge : nat) {struct s} :=
        match s with
        | c :: s' =>
            if p c then
              match greedy s' (S pos) gs ge with
              | Some m => Some m
              | None => match_here r' s pos gs ge
              end
            else match_here r' s pos gs ge
        | [] => match_here r' s pos gs ge
        end
  | Star false p :: r' =>
      fix lazy (s : pystr) (pos gs ge : nat) {struct s} :=
        match match_here r' s pos gs ge with
        | Some m => Some m
        | None =>
            match s with
            | c :: s' => if p c then lazy s' (S pos) gs ge else None
            | [] => None
            end
        end
  end.

Definition match_at (r : pattern) (s : pystr) (pos : nat) : option span :=
  match match_here r s pos 0 0 with
  | Some (e, gs, ge) => Some {| m_start := pos; m_end := e; g_start := gs; g_end := ge |}
  | None => None
  end.

(** [re.search]: the leftmost start position at which the pattern matches. *)
Fixpoint search_from (r : pattern) (s : pystr) (pos : nat) : option span :=
  match match_at r s pos with
  | Some m => Some m
  | None =>
      match s with
      | [] => None
      | _ :: s' => search_from r s' (S pos)
      end
  end.

Definition search (r : pattern) (s : pystr) : option span := search_from r s 0.

(** [re.finditer]: the successive non-overlapping matches, left to right.
    [skip] counts the characters of the last match still to pass over.  None
    of the program's patterns matches the empty string; after an empty match
    the scan moves on by one character. *)
Fixpoint scan (r : pattern) (s : pystr) (pos skip : nat) : list span :=
  match skip with
  | S k =>
      match s with
      | [] => []
      | _ :: s' => scan r s' (S pos) k
      end
  | O =>
      match match_at r s pos with
      | Some m =>
          m :: match s with
               | [] => []
               | _ :: s' => scan r s' (S pos) (m_end m - pos - 1)
               end
      | None =>
          match s with
          | [] => []
          | _ :: s' => scan r s' (S pos) 0
          end
      end
  end.

Definition finditer (r : pattern) (s : pystr) : list span := scan r s 0 0.

(** [m.group(1)] *)
Definition group1 (s : pystr) (m : span) : pystr := slice s (g_start m) (g_end m).

(** [re.sub(r, repl, s)] for a replacement without back-references. *)
Fixpoint sub_from (ms : list span) (repl s : pystr) (prev : nat) : pystr :=
  match ms with
  | [] => slice s prev (length s)
  | m :: ms' => slice s prev (m_start m) ++ repl ++ sub_from ms' repl s (m_end m)
  end.

Definition sub (r : pattern) (repl s : pystr) : pystr := sub_from (finditer r s) repl s 0.

End Re.

(** ** Helpers of [app.py] *)

(** The test of the generator in [format_rut_lenient]: [ch.isdigit() or ch == "k"]. *)
Definition kept (c : char) : bool := Unicode.isdigit c || (c =? ch "k")%N.

Definition format_rut_lenient (raw : pystr) : option pystr :=
  if is_empty raw then None
  else
    let s := filter kept (str_lower raw) in
    if length s <? 2 then None
    else
      let body := all_but_last s in
      let dv := str_upper (last_char s) in
      let rev := reversed body in
      let chunks := map (fun i => slice rev i (i + 3)) (range 0 (length rev) 3) in
      let dotted := join (py ".") (map reversed (reversed chunks)) in
      Some (dotted ++ py "-" ++ dv).

(** [TD_RX = re.compile(r"<td[^>]*>(.*?)</td>", flags=re.IGNORECASE | re.DOTALL)] *)
Definition TD_RX : Re.pattern :=
  [Re.lit_i "<"; Re.lit_i "t"; Re.lit_i "d"; Re.Star true Re.not_gt; Re.lit_i ">";
   Re.GroupOpen; Re.Star false Re.any_char; Re.GroupClose;
   Re.lit_i "<"; Re.lit_i "/"; Re.lit_i "t"; Re.lit_i "d"; Re.lit_i ">"].

(** [TR_RX = re.compile(r"<tr[^>]*>([\s\S]*?)</tr>", flags=re.IGNORECASE)] *)
Definition TR_RX : Re.pattern :=
  [Re.lit_i "<"; Re.lit_i "t"; Re.lit_i "r"; Re.Star true Re.not_gt; Re.lit_i ">";
   Re.GroupOpen; Re.Star false Re.any_char; Re.GroupClose;
   Re.lit_i "<"; Re.lit_i "/"; Re.lit_i "t"; Re.lit_i "r"; Re.lit_i ">"].

(** [r"<tr[^>]*>[\s\S]*?<td[^>]*>"] with [re.IGNORECASE] *)
Definition HAS_TDS_RX : Re.pattern :=
  [Re.lit_i "<"; Re.lit_i "t"; Re.lit_i "r"; Re.Star true Re.not_gt; Re.lit_i ">";
   Re.Star false Re.any_char;
   Re.lit_i "<"; Re.lit_i "t"; Re.lit_i "d"; Re.Star true Re.not_gt; Re.lit_i ">"].

(** [r"<[^>]+>"] *)
Definition TAG_RX : Re.pattern :=
  [Re.lit "<"; Re.One Re.not_gt; Re.Star true Re.not_gt; Re.lit ">"].

(** [r"\s+"] *)
Definition SPACES_RX : Re.pattern :=
  [Re.One Unicode.isspace; Re.Star true Unicode.isspace].

Definition ensure_has_tds (html : pystr) : bool :=
  match Re.search HAS_TDS_RX html with Some _ => true | None => false end.

(** The body of the [for td in TD_RX.finditer(tr_content)] loop: the cleaned
    text of one cell. *)
Definition clean_cell (txt : pystr) : pystr :=
  let clean := Re.sub TAG_RX [] txt in
  strip (Re.sub SPACES_RX (py " ") (replace_char 0xA0%N (py " ") clean)).

Definition extract_first_tr_values (html : pystr) : list pystr :=
  match Re.search TR_RX html with
  | None => []
  | Some m =>
      let tr_content := Re.group1 html m in
      fold_left
        (fun values td =>
           let clean := clean_cell (Re.group1 tr_content td) in
           if is_empty clean then values else values ++ [clean])
        (Re.finditer TD_RX tr_content) []
  end.

(** A [Dict[str, str]]: the items in insertion order, keys distinct. *)
Definition dict := list (pystr * pystr).

(** [d[k] = v] *)
Fixpoint dict_set (d : dict) (k v : pystr) : dict :=
  match d with
  | [] => [(k, v)]
  | (k', v') :: d' => if str_eqb k' k then (k', v) :: d' else (k', v') :: dict_set d' k v
  end.

(** A dict display or comprehension: the items are stored one after the other. *)
Definition dict_of (items : list (pystr * pystr)) : dict :=
  fold_left (fun d kv => dict_set d (fst kv) (snd kv)) items [].

(** The second branch of the [match] is never taken: [values[:5]] has five
    elements when [len(values) >= 5], so the unpacking cannot fail. *)
Definition map_values (values : list pystr) : dict :=
  if 5 <=? length values then
    match firstn 5 values with
    | [nombre; rut_resp; genero; direccion; comuna] =>
        dict_of [(py "nombre", nombre); (py "rut", rut_resp); (py "genero", genero);
                 (py "direccion", direccion); (py "comuna", comuna)]
    | _ => []
    end
  else
    dict_of (map (fun iv => (py "campo" ++ str_of_nat (fst iv + 1), snd iv)) (enumerate values)).

(** ** The outside world and the effects of the handlers *)

(** What the handlers read of a [requests.Response]. *)
Record Response := { status_code : Z; text : pystr }.

Inductive exn :=
| HTTPException (status : Z) (detail : pystr)
| RequestException (msg : pystr)
| RuntimeError (msg : pystr)
| BrowserError (msg : pystr).

(** The calls to the two fetchers, in the order they are made. *)
Inductive event :=
| CallRequests (url : pystr)
| CallPlaywright (url : pystr).

(** The environment of one request.  [requests.post] either returns a response
    or raises a [requests.RequestException] ([inl], with its message).
    Playwright is importable or not; when it is, the browser calls either
    raise ([inl]) or [page.content()] returns the rendered HTML. *)
Record World := {
  requests_post : pystr -> pystr + Response;
  playwright_installed : bool;
  render_page : pystr -> pystr + pystr
}.

(** A computation reads the world, logs its fetcher calls and returns a value
    or raises.  The [print] calls of the handlers and the waits of the browser
    tier have no part in what is returned or raised and are left out. *)
Definition M (A : Type) : Type := World -> list event * (exn + A).

Definition ret {A} (a : A) : M A := fun _ => ([], inr a).

Definition raise {A} (e : exn) : M A := fun _ => ([], inl e).

Definition bind {A B} (m : M A) (k : A -> M B) : M B :=
  fun w =>
    match m w with
    | (tr, inl e) => (tr, inl e)
    | (tr, inr a) => let (tr', r) := k a w in (tr ++ tr', r)
    end.

Notation "x <- m ;; k" := (bind m (fun x => k))
  (at level 61, m at next level, right associativity).

(** [try: body  except requests.RequestException as e: handler] *)
Definition try_except_RequestException {A} (body : M A) (handler : pystr -> M A) : M A :=
  fun w =>
    match body w with
    | (tr, inl (RequestException msg)) => let (tr', r) := handler msg w in (tr ++ tr', r)
    | other => other
    end.

Definition trace {A} (m : M A) (w : World) : list event := fst (m w).
Definition outcome {A} (m : M A) (w : World) : exn + A := snd (m w).

Definition is_playwright_call (e : event) : bool :=
  match e with CallPlaywright _ => true | CallRequests _ => false end.

(** Whether the browser tier was invoked during a run. *)
Definition browser_invoked (tr : list event) : bool := existsb is_playwright_call tr.

(** ** Fetchers *)

Definition fetch_via_requests (url : pystr) : M Response :=
  fun w =>
    ([CallRequests url],
     match requests_post w url with
     | inl msg => inl (RequestException msg)
     | inr r => inr r
     end).

Definition playwright_missing : pystr :=
  py "Playwright no est" ++ [0xE1%N] ++ py " instalado. Si us" ++ [0xE1%N]
  ++ py "s Nixpacks, agrega 'playwright==1.55.0' a requirements.txt y en build ejecuta: "
  ++ py "'python -m playwright install --with-deps chromium'. Si us" ++ [0xE1%N]
  ++ py "s Dockerfile, usa la imagen oficial de Playwright.".

Definition fetch_via_playwright (url : pystr) : M pystr :=
  fun w =>
    ([CallPlaywright url],
     if playwright_installed w then
       match render_page w url with
       | inl msg => inl (BrowserError msg)
       | inr html => inr html
       end
     else inl (RuntimeError playwright_missing)).

(** ** Endpoints *)

(** The values of a response body, a [Dict[str, Any]]. *)
Inductive value :=
| VStr (s : pystr)
| VInt (n : Z)
| VList (l : list pystr)
| VDict (d : dict).

Definition payload := list (pystr * value).

(** [RUT_URL.format(rut=formatted)] *)
Definition RUT_URL (formatted : pystr) : pystr := py "https://r.rutificador.co/pr/" ++ formatted.

Definition rut_invalido : pystr := py "RUT inv" ++ [0xE1%N] ++ py "lido".

Definition sin_columnas_validas : pystr :=
  py "No se encontraron columnas <td> v" ++ [0xE1%N] ++ py "lidas".

(** The body both success paths of [get_rut] return. *)
Definition rut_payload (url formatted : pystr) (vals : list pystr) : payload :=
  [(py "source", VStr url);
   (py "rut_consultado", VStr formatted);
   (py "columnas", VInt (Z.of_nat (length vals)));
   (py "data", VDict (map_values vals));
   (py "raw", VList vals)].

Definition inspect_payload (url formatted html : pystr) : payload :=
  [(py "source", VStr url);
   (py "rut_consultado", VStr formatted);
   (py "message", VStr (py "No se detectaron <td> incluso con Playwright."));
   (py "snippet", VStr (slice html 0 1200))].

(** The [try] block of [get_rut]: [Some] is a [return] from the handler,
    [None] falls through to the fallback. *)
Definition get_rut_direct (url formatted : pystr) : M (option payload) :=
  try_except_RequestException
    (r <- fetch_via_requests url ;;
     let html := text r in
     if negb (status_code r =? 403)%Z && ensure_has_tds html then
       let vals := extract_first_tr_values html in
       if is_empty vals then raise (HTTPException 400 sin_columnas_validas)
       else ret (Some (rut_payload url formatted vals))
     else ret None)
    (fun _ => ret None).

(** The rest of [get_rut], from [# 2) Fallback Playwright] on. *)
Definition get_rut_fallback (url formatted : pystr) (inspect : bool) : M payload :=
  html <- fetch_via_playwright url ;;
  if negb (ensure_has_tds html) then
    if inspect then ret (inspect_payload url formatted html)
    else raise (HTTPException 400
                  (py "No se encontraron filas <tr> con columnas <td> en la respuesta"))
  else
    let vals := extract_first_tr_values html in
    if is_empty vals then raise (HTTPException 400 (py "La fila no contiene columnas <td>"))
    else ret (rut_payload url formatted vals).

Definition get_rut (rut : pystr) (inspect : bool) : M payload :=
  match format_rut_lenient rut with
  | None | Some [] => raise (HTTPException 400 rut_invalido)
  | Some formatted =>
      let url := RUT_URL formatted in
      returned <- get_rut_direct url formatted ;;
      match returned with
      | Some p => ret p
      | None => get_rut_fallback url formatted inspect
      end
  end.

Definition raw_payload (status : Z) (url html : pystr) : payload :=
  [(py "status", VInt status); (py "source", VStr url); (py "html", VStr (slice html 0 20000))].

(** The [try] block of [get_rut_raw]. *)
Definition get_rut_raw_direct (url : pystr) : M (option payload) :=
  try_except_RequestException
    (r <- fetch_via_requests url ;;
     let html := text r in
     if negb (status_code r =? 403)%Z && negb (is_empty html)
     then ret (Some (raw_payload (status_code r) url html))
     else ret None)
    (fun _ => ret None).

(** The last two lines of [get_rut_raw]. *)
Definition get_rut_raw_fallback (url : pystr) : M payload :=
  html <- fetch_via_playwright url ;;
  ret (raw_payload 200 url html).

Definition get_rut_raw (rut : pystr) : M payload :=
  match format_rut_lenient rut with
  | None | Some [] => raise (HTTPException 400 rut_invalido)
  | Some formatted =>
      let url := RUT_URL formatted in
      returned <- get_rut_raw_direct url ;;
      match returned with
      | Some p => ret p
      | None => get_rut_raw_fallback url
      end
  end.

(** ** Worlds used to run the handlers on concrete requests *)

Definition world_of (direct : pystr + Response) (installed : bool) (page : pystr + pystr) : World :=
  {| requests_post := fun _ => direct;
     playwright_installed := installed;
     render_page := fun _ => page |}.

(** ** The pattern of the specification

    Regular expressions over characters with their textbook semantics;
    [canonical_rut d] is [\d{1,3}(\.\d{3})*-[0-9K]] with [d] for the class [\d]. *)
Module Pattern.

Inductive regex :=
| Eps
| Cls (p : char -> bool)
| Cat (r1 r2 : regex)
| Alt (r1 r2 : regex)
| Star (r : regex).

Inductive matches : regex -> pystr -> Prop :=
| MEps : matches Eps []
| MCls p c : p c = true -> matches (Cls p) [c]
| MCat r1 r2 s1 s2 : matches r1 s1 -> matches r2 s2 -> matches (Cat r1 r2) (s1 ++ s2)
| MAltL r1 r2 s : matches r1 s -> matches (Alt r1 r2) s
| MAltR r1 r2 s : matches r2 s -> matches (Alt r1 r2) s
| MStarNil r : matches (Star r) []
| MStarApp r s1 s2 : matches r s1 -> matches (Star r) s2 -> matches (Star r) (s1 ++ s2).

Definition Opt (r : regex) : regex := Alt r Eps.

Definition is_char (a : ascii) (c : char) : bool := (c =? ch a)%N.

Definition ascii_digit (c : char) : bool := (ch "0" <=? c)%N && (c <=? ch "9")%N.

Definition digit_or_K (c : char) : bool := ascii_digit c || is_char "K" c.

Definition canonical_rut (d : char -> bool) : regex :=
  Cat (Cat (Cls d) (Cat (Opt (Cls d)) (Opt (Cls d))))
      (Cat (Star (Cat (Cls (is_char ".")) (Cat (Cls d) (Cat (Cls d) (Cls d)))))
           (Cat (Cls (is_char "-")) (Cls digit_or_K))).

End Pattern.

(** ** Definitions the statements below are written with *)

Import Pattern.

Arguments raw_payload : simpl never.
Arguments get_rut_raw_fallback : simpl never.

(** The direct tier accepts a response when it is not a 403 and has table markup. *)
Definition accepted (r : Response) : bool :=
  negb (status_code r =? 403)%Z && ensure_has_tds (text r).

(** The page the browser tier hands back, when it does not raise. *)
Definition rendered_html (w : World) (url : pystr) : option pystr :=
  if playwright_installed w then
    match render_page w url with inr html => Some html | inl _ => None end
  else None.

(** The HTML a run of [get_rut] finally extracts from: the direct response's
    when the direct tier accepts it, the rendered page's otherwise. *)
Definition final_html (w : World) (url : pystr) : option pystr :=
  match requests_post w url with
  | inr r => if accepted r then Some (text r) else rendered_html w url
  | inl _ => rendered_html w url
  end.

(** The direct tier left the request undecided: it raised, or its response
    was not accepted. *)
Definition direct_inconclusive (w : World) (url : pystr) : bool :=
  match requests_post w url with
  | inr r => negb (accepted r)
  | inl _ => true
  end.

(** The specification's reading of [inspect]: with [inspect=true], every run
    whose final HTML yields no cell answers with the diagnostic payload. *)
Definition inspect_reports_every_failure (w : World) (rut : pystr) : Prop :=
  forall formatted html,
    format_rut_lenient rut = Some formatted ->
    final_html w (RUT_URL formatted) = Some html ->
    extract_first_tr_values html = [] ->
    outcome (get_rut rut true) w = inr (inspect_payload (RUT_URL formatted) formatted html).

(** What [get_rut_raw] asks of a direct response to return it as it is. *)
Definition raw_accepted (r : Response) : bool :=
  negb (status_code r =? 403)%Z && negb (is_empty (text r)).

(** The specification's reading of the raw endpoint's escalation: both
    endpoints go to the browser tier on the same requests. *)
Definition raw_escalates_like_get_rut (w : World) (rut : pystr) : Prop :=
  browser_invoked (trace (get_rut_raw rut) w) = browser_invoked (trace (get_rut rut false) w).

(** The key [f"campo{i}"]. *)
Definition campo (i : nat) : pystr := py "campo" ++ str_of_nat i.

(** The characters [format_rut_lenient] works on. *)
Definition significant (raw : pystr) : pystr := filter kept (str_lower raw).

(** [rev[i : i + 3] for i in range(0, len(rev), 3)] *)
Definition chunks3 {A} (l : list A) : list (list A) :=
  map (fun i => slice l i (i + 3)) (range 0 (length l) 3).

Definition dotted (body : pystr) : pystr :=
  join (py ".") (map reversed (reversed (chunks3 (reversed body)))).

(** The same chunks by structural recursion. *)
Fixpoint groups3 {A} (l : list A) : list (list A) :=
  match l with
  | a :: b :: c :: l' => [a; b; c] :: groups3 l'
  | [] => []
  | short => [short]
  end.

(** Every chunk but the last has three elements; the last has one to three. *)
Inductive chunked {A} : list (list A) -> Prop :=
| chunked_last g : 1 <= length g <= 3 -> chunked [g]
| chunked_cons g gs : length g = 3 -> chunked gs -> chunked (g :: gs).

(** The members of an interval, to check a property on every one of them. *)
Definition enum_range (r : N * N) : list N :=
  map (fun k => (fst r + N.of_nat k)%N) (seq 0 (N.to_nat (snd r - fst r + 1))).

(** The specification's invariant of the canonical form, for a reading [d] of
    the class [\d]. *)
Definition always_canonical (d : char -> bool) (raw : pystr) : Prop :=
  forall out, format_rut_lenient raw = Some out -> matches (canonical_rut d) out.

(** [s] without the two separators of the canonical form. *)
Definition without_separators (s : pystr) : pystr :=
  filter (fun c => negb (is_char "." c || is_char "-" c)) s.

(** An ASCII character that is neither a digit nor a [k] of either case. *)
Definition ascii_junk (c : char) : bool :=
  (c <? 128)%N && negb (ascii_digit c) && negb (is_char "k" c) && negb (is_char "K" c).

(** What a pattern can consume, whatever the order in which [re] tries the
    alternatives: the declarative reading of a pattern, group marks aside. *)
Inductive consumes : Re.pattern -> pystr -> Prop :=
| consumes_nil : consumes [] []
| consumes_one p r c s :
    p c = true -> consumes r s -> consumes (Re.One p :: r) (c :: s)
| consumes_open r s : consumes r s -> consumes (Re.GroupOpen :: r) s
| consumes_close r s : consumes r s -> consumes (Re.GroupClose :: r) s
| consumes_star_stop g p r s : consumes r s -> consumes (Re.Star g p :: r) s
| consumes_star_step g p r c s :
    p c = true -> consumes (Re.Star g p :: r) s -> consumes (Re.Star g p :: r) (c :: s).

Definition group_free (r : Re.pattern) : bool :=
  forallb (fun n => match n with Re.GroupOpen | Re.GroupClose => false | _ => true end) r.

(** The pieces the three patterns on rows and cells are made of:
    [<tr[^>]*>], [<td[^>]*>], [</tr>] and [</td>]. *)
Definition TR_OPEN : Re.pattern :=
  [Re.lit_i "<"; Re.lit_i "t"; Re.lit_i "r"; Re.Star true Re.not_gt; Re.lit_i ">"].

Definition TD_OPEN : Re.pattern :=
  [Re.lit_i "<"; Re.lit_i "t"; Re.lit_i "d"; Re.Star true Re.not_gt; Re.lit_i ">"].

Definition TR_CLOSE : Re.pattern :=
  [Re.lit_i "<"; Re.lit_i "/"; Re.lit_i "t"; Re.lit_i "r"; Re.lit_i ">"].

Definition TD_CLOSE : Re.pattern :=
  [Re.lit_i "<"; Re.lit_i "/"; Re.lit_i "t"; Re.lit_i "d"; Re.lit_i ">"].

(** The calls a handler may make for [rut]: none when normalisation fails,
    else the direct fetch, followed or not by the browser fetch, on one URL. *)
Definition calls_in_order (rut : pystr) (tr : list event) : Prop :=
  match format_rut_lenient rut with
  | None => tr = []
  | Some formatted =>
      tr = [CallRequests (RUT_URL formatted)]
      \/ tr = [CallRequests (RUT_URL formatted); CallPlaywright (RUT_URL formatted)]
  end.

(** The source characters a lower-case rule sends to [d]. *)
Definition rule_preimage (d : char) (r : Unicode.case_rule) : list char :=
  let '(lo, hi, step, img) := r in
  if ((img <=? d) && (d <=? img + (hi - lo)))%N then [(lo + (d - img))%N] else [].

(** An opening tag as [ensure_has_tds] and the extractor accept it: [<], the
    two letters of the name in either case, anything but [>], then [>]. *)
Definition letter_ci (lower upper : ascii) (c : char) : Prop :=
  c = ch lower \/ c = ch upper.

Definition open_tag (l1 u1 l2 u2 : ascii) (tag : pystr) : Prop :=
  exists c1 c2 attrs,
    tag = [ch "<"; c1; c2] ++ attrs ++ [ch ">"]
    /\ letter_ci l1 u1 c1 /\ letter_ci l2 u2 c2
    /\ ~ In (ch ">") attrs.

(** Every whitespace character of [s] is a U+0020 that is not followed by
    another whitespace character. *)
Fixpoint single_spaced (s : pystr) : bool :=
  match s with
  | [] => true
  | c :: s' =>
      (if Unicode.isspace c
       then (c =? 0x20)%N && match s' with [] => true | d :: _ => negb (Unicode.isspace d) end
       else true)
      && single_spaced s'
  end.

(** [re.sub] read off the string alone, one character at a time: the text
    between matches is copied, each match gives [repl]. *)
Fixpoint sub_walk (r : Re.pattern) (repl s : pystr) (pos skip : nat) : pystr :=
  match skip with
  | S k =>
      match s with
      | [] => []
      | _ :: s' => sub_walk r repl s' (S pos) k
      end
  | O =>
      match Re.match_at r s pos with
      | Some m =>
          repl ++ match s with
                  | [] => []
                  | c :: s' =>
                      (if Re.m_end m - pos =? 0 then [c] else [])
                      ++ sub_walk r repl s' (S pos) (Re.m_end m - pos - 1)
                  end
      | None =>
          match s with
          | [] => []
          | c :: s' => c :: sub_walk r repl s' (S pos) 0
          end
      end
  end.

(** The length of the longest prefix of [s] in the class [p]. *)
Fixpoint run_length (p : char -> bool) (s : pystr) : nat :=
  match s with
  | c :: s' => if p c then S (run_length p s') else 0
  | [] => 0
  end.

(** A closing tag: [</], the two letters of the name in either case, [>]. *)
Definition close_tag (l1 u1 l2 u2 : ascii) (tag : pystr) : Prop :=
  exists c1 c2,
    tag = [ch "<"; ch "/"; c1; c2; ch ">"] /\ letter_ci l1 u1 c1 /\ letter_ci l2 u2 c2.

(** * Properties *)

(** ** The handlers *)

Lemma format_rut_lenient_nonempty raw formatted :
  format_rut_lenient raw = Some formatted -> formatted <> [].
Proof.
  unfold format_rut_lenient.
  destruct (is_empty raw); [discriminate|].
  destruct (length _ <? 2); [discriminate|].
  intros H; injection H as <-.
  destruct (join _ _); discriminate.
Qed.

(** [l[:n]] is the first [n] elements, or all of [l] when it is shorter. *)
Lemma slice_0 {A} (l : list A) n : slice l 0 n = firstn n l.
Proof. unfold slice. now rewrite Nat.sub_0_r. Qed.

Lemma slice_0_length {A} (l : list A) n : length (slice l 0 n) <= n.
Proof. rewrite slice_0. apply firstn_le_length. Qed.

Lemma slice_0_prefix {A} (l : list A) n : exists rest, l = slice l 0 n ++ rest.
Proof. exists (skipn n l). rewrite slice_0. symmetry. apply firstn_skipn. Qed.

Lemma accepted_false_iff r :
  accepted r = false <-> status_code r = 403%Z \/ ensure_has_tds (text r) = false.
Proof.
  unfold accepted. rewrite andb_false_iff, negb_false_iff, Z.eqb_eq. reflexivity.
Qed.

Lemma raw_accepted_false_iff r :
  raw_accepted r = false <-> status_code r = 403%Z \/ text r = [].
Proof.
  unfold raw_accepted. rewrite andb_false_iff, !negb_false_iff, Z.eqb_eq.
  destruct (text r); simpl; intuition discriminate.
Qed.

(** The three ways the browser tier can go: a browser call raises, the page is
    rendered, Playwright is missing. *)
Ltac browser_cases w url :=
  unfold get_rut_fallback, get_rut_raw_fallback, bind, fetch_via_playwright, rendered_html;
  destruct (playwright_installed w);
  [destruct (render_page w url) as [?msg | ?html]|].

(** The steps of one request, in a fixed world and for a fixed URL. *)
Section Run.

Variable w : World.
Variables url formatted : pystr.

Lemma get_rut_direct_response r :
  requests_post w url = inr r ->
  get_rut_direct url formatted w =
    ([CallRequests url],
     if accepted r then
       if is_empty (extract_first_tr_values (text r))
       then inl (HTTPException 400 sin_columnas_validas)
       else inr (Some (rut_payload url formatted (extract_first_tr_values (text r))))
     else inr None).
Proof.
  intros H.
  unfold get_rut_direct, try_except_RequestException, bind, fetch_via_requests, accepted.
  rewrite H.
  destruct (negb (status_code r =? 403)%Z && ensure_has_tds (text r)); [|reflexivity].
  destruct (is_empty (extract_first_tr_values (text r))); reflexivity.
Qed.

Lemma get_rut_direct_transport_error msg :
  requests_post w url = inl msg ->
  get_rut_direct url formatted w = ([CallRequests url], inr None).
Proof.
  intros H.
  unfold get_rut_direct, try_except_RequestException, bind, fetch_via_requests.
  rewrite H. reflexivity.
Qed.

Lemma get_rut_fallback_trace inspect :
  trace (get_rut_fallback url formatted inspect) w = [CallPlaywright url].
Proof.
  unfold trace. browser_cases w url; try reflexivity.
  destruct (negb (ensure_has_tds html)).
  - destruct inspect; reflexivity.
  - destruct (is_empty (extract_first_tr_values html)); reflexivity.
Qed.

Lemma get_rut_fallback_no_transport_error inspect msg :
  outcome (get_rut_fallback url formatted inspect) w <> inl (RequestException msg).
Proof.
  unfold outcome. browser_cases w url; try discriminate.
  destruct (negb (ensure_has_tds html)).
  - destruct inspect; discriminate.
  - destruct (is_empty (extract_first_tr_values html)); discriminate.
Qed.

(** What the fallback can return: the diagnostic, or the payload of a row
    with at least one cell. *)
Lemma get_rut_fallback_returns inspect p :
  outcome (get_rut_fallback url formatted inspect) w = inr p ->
  exists html,
    rendered_html w url = Some html
    /\ (inspect = true /\ ensure_has_tds html = false
        /\ p = inspect_payload url formatted html
        \/ extract_first_tr_values html <> []
           /\ p = rut_payload url formatted (extract_first_tr_values html)).
Proof.
  unfold outcome. browser_cases w url; try discriminate.
  destruct (ensure_has_tds html) eqn:Hh; simpl.
  - destruct (extract_first_tr_values html) as [|v vals] eqn:He; [discriminate|].
    intros [= <-]. exists html. split; [reflexivity|]. right. rewrite He. now split.
  - destruct inspect; [|discriminate].
    intros [= <-]. exists html. split; [reflexivity|]. left. now repeat split.
Qed.

Lemma get_rut_raw_direct_run :
  get_rut_raw_direct url w =
    ([CallRequests url],
     inr match requests_post w url with
         | inr r => if raw_accepted r
                    then Some (raw_payload (status_code r) url (text r)) else None
         | inl _ => None
         end).
Proof.
  unfold get_rut_raw_direct, try_except_RequestException, bind, fetch_via_requests, raw_accepted.
  destruct (requests_post w url) as [msg|r]; [reflexivity|].
  destruct (negb (status_code r =? 403)%Z && negb (is_empty (text r))); reflexivity.
Qed.

Lemma get_rut_raw_fallback_trace :
  trace (get_rut_raw_fallback url) w = [CallPlaywright url].
Proof.
  unfold trace. browser_cases w url; reflexivity.
Qed.

Lemma get_rut_raw_fallback_returns p :
  outcome (get_rut_raw_fallback url) w = inr p ->
  exists html,
    render_page w url = inr html
    /\ p = [(py "status", VInt 200); (py "source", VStr url);
            (py "html", VStr (slice html 0 20000))].
Proof.
  unfold outcome. browser_cases w url; try discriminate.
  intros [= <-]. now exists html.
Qed.

End Run.

(** [get_rut] and [get_rut_raw] once normalisation has succeeded. *)
Lemma get_rut_formatted rut inspect formatted :
  format_rut_lenient rut = Some formatted ->
  get_rut rut inspect =
    (returned <- get_rut_direct (RUT_URL formatted) formatted ;;
     match returned with
     | Some p => ret p
     | None => get_rut_fallback (RUT_URL formatted) formatted inspect
     end).
Proof.
  intros H. unfold get_rut. rewrite H.
  apply format_rut_lenient_nonempty in H.
  destruct formatted; [contradiction | reflexivity].
Qed.

Lemma get_rut_raw_formatted rut formatted :
  format_rut_lenient rut = Some formatted ->
  get_rut_raw rut =
    (returned <- get_rut_raw_direct (RUT_URL formatted) ;;
     match returned with
     | Some p => ret p
     | None => get_rut_raw_fallback (RUT_URL formatted)
     end).
Proof.
  intros H. unfold get_rut_raw. rewrite H.
  apply format_rut_lenient_nonempty in H.
  destruct formatted; [contradiction | reflexivity].
Qed.

Lemma get_rut_inconclusive w rut inspect formatted :
  format_rut_lenient rut = Some formatted ->
  direct_inconclusive w (RUT_URL formatted) = true ->
  outcome (get_rut rut inspect) w
  = outcome (get_rut_fallback (RUT_URL formatted) formatted inspect) w.
Proof.
  intros Hf Hd.
  rewrite (get_rut_formatted _ _ _ Hf).
  unfold direct_inconclusive in Hd. unfold outcome, bind.
  destruct (requests_post w (RUT_URL formatted)) as [msg|r] eqn:Hr.
  - rewrite (get_rut_direct_transport_error _ _ formatted _ Hr).
    now destruct (get_rut_fallback _ _ _ w).
  - rewrite (get_rut_direct_response _ _ formatted _ Hr).
    apply negb_true_iff in Hd. rewrite Hd.
    now destruct (get_rut_fallback _ _ _ w).
Qed.

(** C1: when the direct fetch returns a response, the browser tier is invoked
    exactly when the status is 403 or the body has no [<tr>...<td>] sequence;
    a non-403 response with table markup whose extraction yields no cell ends
    the request with the 400 of the direct tier, without the browser tier. *)
Theorem get_rut_escalates_iff_blocked w rut inspect formatted r :
  format_rut_lenient rut = Some formatted ->
  requests_post w (RUT_URL formatted) = inr r ->
  (browser_invoked (trace (get_rut rut inspect) w) = true <->
   status_code r = 403%Z \/ ensure_has_tds (text r) = false)
  /\ (status_code r <> 403%Z ->
      ensure_has_tds (text r) = true ->
      extract_first_tr_values (text r) = [] ->
      browser_invoked (trace (get_rut rut inspect) w) = false
      /\ outcome (get_rut rut inspect) w = inl (HTTPException 400 sin_columnas_validas)).
Proof.
  intros Hf Hr.
  rewrite (get_rut_formatted _ _ _ Hf).
  pose proof (get_rut_fallback_trace w (RUT_URL formatted) formatted inspect) as Ht.
  unfold trace, outcome, bind in *.
  rewrite (get_rut_direct_response _ _ formatted _ Hr).
  rewrite <- accepted_false_iff.
  split.
  - destruct (accepted r).
    + destruct (is_empty (extract_first_tr_values (text r))); simpl; split; discriminate.
    + destruct (get_rut_fallback _ _ _ w) as [tr res]; simpl in *; subst tr.
      split; reflexivity.
  - intros Hs Hh He.
    assert (Ha : accepted r = true).
    { unfold accepted. rewrite Hh, andb_true_r, negb_true_iff. now apply Z.eqb_neq. }
    rewrite Ha, He. simpl. split; reflexivity.
Qed.

Lemma get_rut_escalates_iff_blocked_witness :
  let w := world_of (inr {| status_code := 200; text := py "<tr><td> </td></tr>" |})
                    true (inr (py "<tr><td>x</td></tr>")) in
  browser_invoked (trace (get_rut (py "15421741K") false) w) = false
  /\ outcome (get_rut (py "15421741K") false) w = inl (HTTPException 400 sin_columnas_validas).
Proof.
  intros w.
  refine (proj2 (@get_rut_escalates_iff_blocked w (py "15421741K") false (py "15.421.741-K")
                   {| status_code := 200; text := py "<tr><td> </td></tr>" |} _ _) _ _ _).
  - vm_compute; reflexivity.
  - reflexivity.
  - simpl; discriminate.
  - vm_compute; reflexivity.
  - vm_compute; reflexivity.
Defined.

(** C2: a [requests.RequestException] of the direct fetch is swallowed: the
    handler goes on to the browser tier, its result is the fallback's, and no
    [RequestException] reaches the caller. *)
Theorem get_rut_swallows_transport_error w rut inspect formatted msg :
  format_rut_lenient rut = Some formatted ->
  requests_post w (RUT_URL formatted) = inl msg ->
  trace (get_rut rut inspect) w = [CallRequests (RUT_URL formatted); CallPlaywright (RUT_URL formatted)]
  /\ outcome (get_rut rut inspect) w = outcome (get_rut_fallback (RUT_URL formatted) formatted inspect) w
  /\ forall m, outcome (get_rut rut inspect) w <> inl (RequestException m).
Proof.
  intros Hf Hr.
  rewrite (get_rut_formatted _ _ _ Hf).
  pose proof (get_rut_fallback_trace w (RUT_URL formatted) formatted inspect) as Ht.
  pose proof (get_rut_fallback_no_transport_error w (RUT_URL formatted) formatted inspect) as Hn.
  unfold trace, outcome, bind in *.
  rewrite (get_rut_direct_transport_error _ _ formatted _ Hr).
  destruct (get_rut_fallback _ _ _ w) as [tr res]; simpl in *; subst tr.
  repeat split; auto.
Qed.

Lemma get_rut_swallows_transport_error_witness :
  let w := world_of (inl (py "timed out")) true (inr (py "<tr><td>x</td></tr>")) in
  trace (get_rut (py "15421741K") false) w
  = [CallRequests (RUT_URL (py "15.421.741-K")); CallPlaywright (RUT_URL (py "15.421.741-K"))].
Proof.
  intros w.
  refine (proj1 (@get_rut_swallows_transport_error w (py "15421741K") false (py "15.421.741-K")
                   (py "timed out") _ _)).
  - vm_compute; reflexivity.
  - reflexivity.
Defined.

(** The rendered page has a row whose only cell is blank: the handler raises
    its 400 although [inspect] is set. *)
Lemma inspect_misses_blank_row :
  ~ inspect_reports_every_failure
      (world_of (inr {| status_code := 403; text := [] |}) true (inr (py "<tr><td> </td></tr>")))
      (py "15421741K").
Proof.
  intros H.
  specialize (H (py "15.421.741-K") (py "<tr><td> </td></tr>")).
  vm_compute in H.
  specialize (H eq_refl eq_refl eq_refl).
  discriminate H.
Qed.

(** C3, amended: with [inspect=true], when the browser tier is reached and the
    rendered HTML has no [<tr>...<td>] sequence, the handler returns the
    diagnostic payload, whose snippet is the first 1200 characters of that HTML. *)
Theorem get_rut_inspect_diagnostic w rut formatted html :
  format_rut_lenient rut = Some formatted ->
  direct_inconclusive w (RUT_URL formatted) = true ->
  rendered_html w (RUT_URL formatted) = Some html ->
  ensure_has_tds html = false ->
  outcome (get_rut rut true) w
  = inr [(py "source", VStr (RUT_URL formatted));
         (py "rut_consultado", VStr formatted);
         (py "message", VStr (py "No se detectaron <td> incluso con Playwright."));
         (py "snippet", VStr (slice html 0 1200))]
  /\ slice html 0 1200 = firstn 1200 html.
Proof.
  intros Hf Hd Hr Hh.
  split; [|apply slice_0].
  rewrite (get_rut_inconclusive w rut true formatted Hf Hd).
  revert Hr. unfold outcome. browser_cases w (RUT_URL formatted); try discriminate.
  intros [= ->]. rewrite Hh. reflexivity.
Qed.

Lemma get_rut_inspect_diagnostic_witness :
  outcome (get_rut (py "15421741K") true)
          (world_of (inr {| status_code := 403; text := [] |}) true
                    (inr (py "<html>Just a moment...</html>")))
  = inr [(py "source", VStr (RUT_URL (py "15.421.741-K")));
         (py "rut_consultado", VStr (py "15.421.741-K"));
         (py "message", VStr (py "No se detectaron <td> incluso con Playwright."));
         (py "snippet", VStr (slice (py "<html>Just a moment...</html>") 0 1200))].
Proof.
  refine (proj1 (get_rut_inspect_diagnostic _ (py "15421741K") (py "15.421.741-K")
                   (py "<html>Just a moment...</html>") _ _ _ _));
    vm_compute; reflexivity.
Defined.

(** ** The raw endpoint *)

(** A 200 challenge page without table markup: [get_rut] escalates,
    [get_rut_raw] returns the page. *)
Lemma raw_keeps_challenge_page :
  ~ raw_escalates_like_get_rut
      (world_of (inr {| status_code := 200; text := py "<html>Just a moment...</html>" |})
                true (inr (py "<tr><td>x</td></tr>")))
      (py "15421741K").
Proof.
  unfold raw_escalates_like_get_rut. vm_compute. discriminate.
Qed.

(** C4, amended: [get_rut_raw] normalises like [get_rut] and queries the same
    URL through the direct tier first, but goes to the browser tier when the
    direct fetch raised, or returned a 403 or an empty body; it returns the
    first 20000 characters of the HTML, with the status of the direct response
    when that one is returned and with the constant 200 for a rendered page. *)
Theorem get_rut_raw_spec w rut :
  (format_rut_lenient rut = None ->
   get_rut_raw rut w = ([], inl (HTTPException 400 rut_invalido))
   /\ get_rut rut false w = ([], inl (HTTPException 400 rut_invalido)))
  /\ (forall formatted,
        format_rut_lenient rut = Some formatted ->
        let url := RUT_URL formatted in
        (exists rest rest',
            trace (get_rut_raw rut) w = CallRequests url :: rest
            /\ trace (get_rut rut false) w = CallRequests url :: rest')
        /\ (browser_invoked (trace (get_rut_raw rut) w) = true <->
            match requests_post w url with
            | inl _ => True
            | inr r => status_code r = 403%Z \/ text r = []
            end)
        /\ (forall p,
              outcome (get_rut_raw rut) w = inr p ->
              exists status html,
                p = [(py "status", VInt status); (py "source", VStr url);
                     (py "html", VStr (slice html 0 20000))]
                /\ (exists rest, html = slice html 0 20000 ++ rest)
                /\ length (slice html 0 20000) <= 20000
                /\ (requests_post w url = inr {| status_code := status; text := html |}
                    /\ browser_invoked (trace (get_rut_raw rut) w) = false
                    \/ status = 200%Z
                       /\ render_page w url = inr html
                       /\ browser_invoked (trace (get_rut_raw rut) w) = true))).
Proof.
  split.
  - intros Hf. unfold get_rut_raw, get_rut. rewrite Hf. split; reflexivity.
  - intros formatted Hf url.
    rewrite (get_rut_formatted _ _ _ Hf), (get_rut_raw_formatted _ _ Hf). fold url.
    pose proof (get_rut_fallback_trace w url formatted false) as Ht.
    pose proof (get_rut_raw_fallback_returns w url) as Hfb.
    pose proof (get_rut_raw_fallback_trace w url) as Htr.
    unfold trace, outcome, bind in *.
    rewrite get_rut_raw_direct_run.
    split.
    { destruct (requests_post w url) as [msg|r] eqn:Hr.
      - rewrite (get_rut_direct_transport_error _ _ formatted _ Hr).
        destruct (get_rut_fallback url formatted false w); simpl.
        destruct (get_rut_raw_fallback url w); simpl; eauto.
      - rewrite (get_rut_direct_response _ _ formatted _ Hr).
        destruct (accepted r); [destruct (is_empty (extract_first_tr_values (text r)))|];
          [| |destruct (get_rut_fallback url formatted false w) as [tr res]];
          destruct (raw_accepted r); simpl;
          try destruct (get_rut_raw_fallback url w); simpl; eauto. }
    destruct (requests_post w url) as [msg|r] eqn:Hr;
      [|pose proof (raw_accepted_false_iff r) as Hacc; destruct (raw_accepted r)]; simpl;
      try (destruct (get_rut_raw_fallback url w) as [trf resf]; simpl in *; subst trf; simpl).
    + split; [tauto|]. intros p Hp. apply Hfb in Hp as (html & Hh & ->).
      exists 200%Z, html. split; [reflexivity|]. split; [apply slice_0_prefix|]. split; [apply slice_0_length|].
      right. auto.
    + split.
      { split; [discriminate|]. intros H. apply Hacc in H. discriminate. }
      intros p [= <-]. exists (status_code r), (text r).
      split; [reflexivity|]. split; [apply slice_0_prefix|]. split; [apply slice_0_length|].
      left. now destruct r.
    + split; [split; [intros _; now apply Hacc | reflexivity]|].
      intros p Hp. apply Hfb in Hp as (html & Hh & ->).
      exists 200%Z, html. split; [reflexivity|]. split; [apply slice_0_prefix|]. split; [apply slice_0_length|].
      right. auto.
Qed.

Lemma get_rut_raw_spec_witness :
  let w := world_of (inr {| status_code := 200; text := py "<html>Just a moment...</html>" |})
                    true (inr (py "<tr><td>x</td></tr>")) in
  browser_invoked (trace (get_rut_raw (py "15421741K")) w) = true <->
  (200 = 403)%Z \/ py "<html>Just a moment...</html>" = [].
Proof.
  intros w.
  refine (proj1 (proj2 (proj2 (get_rut_raw_spec w (py "15421741K")) (py "15.421.741-K") _))).
  vm_compute; reflexivity.
Defined.

(** ** The record mapper *)

Lemma map_values_five a b c d e rest :
  map_values (a :: b :: c :: d :: e :: rest)
  = [(py "nombre", a); (py "rut", b); (py "genero", c); (py "direccion", d); (py "comuna", e)].
Proof. reflexivity. Qed.

(** C8: five or more cells give the five named fields bound to the first five
    cells in order, whatever follows; fewer than five give [campo1] ...
    [campoN], one per cell in order; no cell gives the empty record. *)
Theorem map_values_spec :
  (forall a b c d e rest,
      map_values (a :: b :: c :: d :: e :: rest)
      = [(py "nombre", a); (py "rut", b); (py "genero", c);
         (py "direccion", d); (py "comuna", e)])
  /\ (forall values,
        length values < 5 ->
        map_values values = combine (map campo (seq 1 (length values))) values
        /\ length (map_values values) = length values)
  /\ map campo (seq 1 4) = [py "campo1"; py "campo2"; py "campo3"; py "campo4"]
  /\ map_values [] = [].
Proof.
  split; [exact map_values_five|].
  repeat split.
  - destruct values as [|a [|b [|c [|d [|e rest]]]]]; simpl in H; try lia; reflexivity.
  - destruct values as [|a [|b [|c [|d [|e rest]]]]]; simpl in H; try lia; reflexivity.
Qed.

Lemma map_values_spec_witness :
  map_values [py "A"; py "B"; py "C"]
  = [(py "campo1", py "A"); (py "campo2", py "B"); (py "campo3", py "C")].
Proof.
  refine (proj1 (proj1 (proj2 map_values_spec) [py "A"; py "B"; py "C"] _)).
  simpl; lia.
Defined.

(** C9: the row of five cells of the specification's example, extracted and mapped. *)
Theorem five_cell_row_example :
  extract_first_tr_values (py "<tr><td>A</td><td>B</td><td>C</td><td>D</td><td>E</td></tr>")
  = [py "A"; py "B"; py "C"; py "D"; py "E"]
  /\ map_values [py "A"; py "B"; py "C"; py "D"; py "E"]
     = [(py "nombre", py "A"); (py "rut", py "B"); (py "genero", py "C");
        (py "direccion", py "D"); (py "comuna", py "E")].
Proof. split; vm_compute; reflexivity. Qed.

(** ** The success payload *)

(** With more than five cells, the mapping names the first five and the list
    has more. *)
Lemma map_values_more_than_five (vals : list pystr) :
  5 < length vals ->
  (5 < Z.of_nat (length vals))%Z
  /\ map fst (map_values vals)
     = [py "nombre"; py "rut"; py "genero"; py "direccion"; py "comuna"]
  /\ map snd (map_values vals) = firstn 5 vals
  /\ skipn 5 vals <> [].
Proof.
  intros Hl. split; [lia|].
  destruct vals as [|a [|b [|c [|d [|e [|f rest]]]]]]; simpl in Hl; try lia.
  rewrite map_values_five. repeat split. discriminate.
Qed.

(** The payload of a non-empty cell list, spelled out. *)
Lemma rut_payload_shape url formatted (vals : list pystr) :
  vals <> [] ->
  exists vals',
    vals' = vals
    /\ vals' <> []
    /\ rut_payload url formatted vals
       = [(py "source", VStr url);
          (py "rut_consultado", VStr formatted);
          (py "columnas", VInt (Z.of_nat (length vals')));
          (py "data", VDict (map_values vals'));
          (py "raw", VList vals')]
    /\ (5 < length vals' ->
        (5 < Z.of_nat (length vals'))%Z
        /\ map fst (map_values vals')
           = [py "nombre"; py "rut"; py "genero"; py "direccion"; py "comuna"]
        /\ map snd (map_values vals') = firstn 5 vals'
        /\ skipn 5 vals' <> []).
Proof.
  intros Hne. exists vals. repeat split; auto; now apply map_values_more_than_five.
Qed.

(** C10: whatever [get_rut] returns is either the diagnostic of an inspected
    request or the success payload, and the success payload is built from the
    full list of cells extracted from the final HTML: [columnas] is its length
    and [raw] is the list itself, while [data] is its mapping; with more than
    five cells [columnas] exceeds 5 and [raw] keeps every cell, although
    [data] names the first five only. *)
Theorem get_rut_reports_all_cells w rut inspect p :
  outcome (get_rut rut inspect) w = inr p ->
  exists formatted html,
    format_rut_lenient rut = Some formatted
    /\ final_html w (RUT_URL formatted) = Some html
    /\ (inspect = true /\ ensure_has_tds html = false
        /\ p = inspect_payload (RUT_URL formatted) formatted html
        \/ exists vals,
             vals = extract_first_tr_values html
             /\ vals <> []
             /\ p = [(py "source", VStr (RUT_URL formatted));
                     (py "rut_consultado", VStr formatted);
                     (py "columnas", VInt (Z.of_nat (length vals)));
                     (py "data", VDict (map_values vals));
                     (py "raw", VList vals)]
             /\ (5 < length vals ->
                 (5 < Z.of_nat (length vals))%Z
                 /\ map fst (map_values vals)
                    = [py "nombre"; py "rut"; py "genero"; py "direccion"; py "comuna"]
                 /\ map snd (map_values vals) = firstn 5 vals
                 /\ skipn 5 vals <> [])).
Proof.
  intros Ho.
  destruct (format_rut_lenient rut) as [formatted|] eqn:Hf.
  2:{ unfold outcome, get_rut in Ho. rewrite Hf in Ho. discriminate. }
  exists formatted.
  rewrite (get_rut_formatted _ _ _ Hf) in Ho.
  unfold final_html.
  pose proof (get_rut_fallback_returns w (RUT_URL formatted) formatted inspect p) as Hfb.
  assert (Hback : outcome (get_rut_fallback (RUT_URL formatted) formatted inspect) w = inr p ->
                  exists html,
                    rendered_html w (RUT_URL formatted) = Some html
                    /\ (inspect = true /\ ensure_has_tds html = false
                        /\ p = inspect_payload (RUT_URL formatted) formatted html
                        \/ exists vals,
                             vals = extract_first_tr_values html
                             /\ vals <> []
                             /\ p = rut_payload (RUT_URL formatted) formatted vals
                             /\ (5 < length vals ->
                                 (5 < Z.of_nat (length vals))%Z
                                 /\ map fst (map_values vals)
                                    = [py "nombre"; py "rut"; py "genero"; py "direccion";
                                       py "comuna"]
                                 /\ map snd (map_values vals) = firstn 5 vals
                                 /\ skipn 5 vals <> []))).
  { intros H. destruct (Hfb H) as (html & Hh & [Hd | [Hne ->]]); exists html; auto.
    split; [assumption|]. right.
    destruct (rut_payload_shape (RUT_URL formatted) formatted _ Hne) as (v & -> & H1 & _ & H3).
    eauto 6. }
  clear Hfb. unfold outcome, bind in *.
  destruct (requests_post w (RUT_URL formatted)) as [msg|r] eqn:Hr.
  - rewrite (get_rut_direct_transport_error _ _ formatted _ Hr) in Ho.
    destruct (get_rut_fallback _ _ _ w) as [tr res]; simpl in Ho, Hback.
    destruct (Hback Ho) as (html & H). exists html. split; [reflexivity | exact H].
  - rewrite (get_rut_direct_response _ _ formatted _ Hr) in Ho.
    destruct (accepted r).
    + destruct (extract_first_tr_values (text r)) as [|v vals] eqn:He; [discriminate|].
      simpl in Ho. injection Ho as <-.
      exists (text r). split; [reflexivity|]. split; [reflexivity|]. right. rewrite He.
      destruct (rut_payload_shape (RUT_URL formatted) formatted (v :: vals))
        as (v' & -> & H1 & _ & H3); [discriminate|].
      eauto 6.
    + destruct (get_rut_fallback _ _ _ w) as [tr res]; simpl in Ho, Hback.
      destruct (Hback Ho) as (html & H). exists html. split; [reflexivity | exact H].
Qed.

Lemma get_rut_reports_all_cells_witness :
  exists formatted html,
    format_rut_lenient (py "15421741K") = Some formatted
    /\ final_html (world_of (inr {| status_code := 200;
                                    text := py "<tr><td>A</td><td>B</td><td>C</td><td>D</td><td>E</td><td>F</td></tr>" |})
                            false (inl []))
                  (RUT_URL formatted) = Some html
    /\ (false = true /\ ensure_has_tds html = false
        /\ rut_payload (RUT_URL (py "15.421.741-K")) (py "15.421.741-K")
                       [py "A"; py "B"; py "C"; py "D"; py "E"; py "F"]
           = inspect_payload (RUT_URL formatted) formatted html
        \/ exists vals,
             vals = extract_first_tr_values html
             /\ vals <> []
             /\ rut_payload (RUT_URL (py "15.421.741-K")) (py "15.421.741-K")
                            [py "A"; py "B"; py "C"; py "D"; py "E"; py "F"]
                = [(py "source", VStr (RUT_URL formatted));
                   (py "rut_consultado", VStr formatted);
                   (py "columnas", VInt (Z.of_nat (length vals)));
                   (py "data", VDict (map_values vals));
                   (py "raw", VList vals)]
             /\ (5 < length vals ->
                 (5 < Z.of_nat (length vals))%Z
                 /\ map fst (map_values vals)
                    = [py "nombre"; py "rut"; py "genero"; py "direccion"; py "comuna"]
                 /\ map snd (map_values vals) = firstn 5 vals
                 /\ skipn 5 vals <> [])).
Proof.
  apply (get_rut_reports_all_cells _ (py "15421741K") false).
  vm_compute; reflexivity.
Defined.

(** ** The normaliser *)

Lemma format_rut_lenient_eq raw :
  format_rut_lenient raw =
    if length (significant raw) <? 2 then None
    else Some (dotted (all_but_last (significant raw))
               ++ py "-" ++ str_upper (last_char (significant raw))).
Proof.
  unfold format_rut_lenient. destruct raw; reflexivity.
Qed.

Lemma groups3_ind' {A} (P : list A -> Prop) :
  P [] -> (forall a, P [a]) -> (forall a b, P [a; b]) ->
  (forall a b c l, P l -> P (a :: b :: c :: l)) ->
  forall l, P l.
Proof.
  intros H0 H1 H2 H3.
  assert (H : forall l, P l /\ (forall a, P (a :: l)) /\ (forall a b, P (a :: b :: l))).
  { induction l as [|x l (IH0 & IH1 & IH2)]; repeat split; auto. }
  intros l. apply H.
Qed.

Lemma chunks3_from {A} fuel : forall (l pre : list A),
  length l <= fuel ->
  map (fun i => slice (pre ++ l) i (i + 3))
      (range_from fuel (length pre) (length pre + length l) 3)
  = groups3 l.
Proof.
  induction fuel as [|fuel IH]; intros l pre Hl.
  - destruct l; [reflexivity | simpl in Hl; lia].
  - assert (Hs : forall n, slice (pre ++ l) (length pre) (length pre + n) = firstn n l).
    { intros n. unfold slice. rewrite skipn_app, skipn_all, Nat.sub_diag. simpl.
      f_equal. lia. }
    destruct l as [|a [|b [|c l]]]; cbn [range_from length].
    + replace (length pre <? length pre + 0) with false
        by (symmetry; apply Nat.ltb_ge; lia). reflexivity.
    + replace (length pre <? length pre + 1) with true
        by (symmetry; apply Nat.ltb_lt; lia).
      cbn [map]. rewrite (Hs 3).
      destruct fuel; cbn [range_from]; [reflexivity|].
      replace (length pre + 3 <? length pre + 1) with false
        by (symmetry; apply Nat.ltb_ge; lia). reflexivity.
    + replace (length pre <? length pre + 2) with true
        by (symmetry; apply Nat.ltb_lt; lia).
      cbn [map]. rewrite (Hs 3).
      destruct fuel; cbn [range_from]; [reflexivity|].
      replace (length pre + 3 <? length pre + 2) with false
        by (symmetry; apply Nat.ltb_ge; lia). reflexivity.
    + replace (length pre <? length pre + S (S (S (length l)))) with true
        by (symmetry; apply Nat.ltb_lt; lia).
      cbn [map]. rewrite (Hs 3). cbn [firstn groups3]. f_equal.
      specialize (IH l (pre ++ [a; b; c])).
      rewrite <- app_assoc, length_app in IH. cbn [app length] in IH.
      replace (length pre + S (S (S (length l)))) with (length pre + 3 + length l) by lia.
      apply IH. simpl in Hl. lia.
Qed.

Lemma chunks3_groups3 {A} (l : list A) : chunks3 l = groups3 l.
Proof.
  unfold chunks3, range. rewrite Nat.sub_0_r.
  apply (chunks3_from (length l) l []). lia.
Qed.

Lemma concat_groups3 {A} (l : list A) : concat (groups3 l) = l.
Proof.
  induction l as [| | |a b c l IH] using groups3_ind'; try reflexivity.
  cbn [groups3 concat]. now rewrite IH.
Qed.

Lemma groups3_chunked {A} (l : list A) : l <> [] -> chunked (groups3 l).
Proof.
  induction l as [| | |a b c l IH] using groups3_ind'; intros Hne.
  - contradiction.
  - apply chunked_last. simpl. lia.
  - apply chunked_last. simpl. lia.
  - cbn [groups3]. destruct l as [|x l].
    + apply chunked_last. simpl. lia.
    + apply chunked_cons; [reflexivity|]. apply IH. discriminate.
Qed.

(** After [chunks[::-1]] the short group comes first. *)
Lemma chunked_reversed {A} (gs : list (list A)) :
  chunked gs ->
  exists g0 rest,
    map reversed (reversed gs) = g0 :: rest
    /\ 1 <= length g0 <= 3
    /\ Forall (fun g => length g = 3) rest.
Proof.
  unfold reversed.
  induction 1 as [g Hg | g gs Hg _ (g0 & rest & Heq & H0 & Hrest)].
  - exists (rev g), []. rewrite length_rev. repeat split; auto; lia.
  - exists g0, (rest ++ [rev g]). cbn [rev]. rewrite map_app, Heq.
    repeat split; try lia.
    apply Forall_app. split; [assumption|].
    constructor; [now rewrite length_rev | constructor].
Qed.

Lemma concat_map_rev {A} (gs : list (list A)) :
  concat (map reversed (reversed gs)) = rev (concat gs).
Proof.
  unfold reversed. induction gs as [|g gs IH]; [reflexivity|].
  cbn [rev concat]. rewrite map_app, concat_app, IH, rev_app_distr.
  simpl. now rewrite app_nil_r.
Qed.

Lemma join_cons sep g0 rest :
  join sep (g0 :: rest) = g0 ++ concat (map (fun g => sep ++ g) rest).
Proof.
  revert g0. induction rest as [|g rest IH]; intros g0.
  - simpl. now rewrite app_nil_r.
  - change (join sep (g0 :: g :: rest)) with (g0 ++ sep ++ join sep (g :: rest)).
    rewrite IH. simpl. now rewrite <- app_assoc.
Qed.

(** The shape of [dotted]: a group of one to three characters, then groups of
    three, each after a dot; the groups are the body cut up. *)
Lemma dotted_shape body :
  body <> [] ->
  exists g0 rest,
    dotted body = g0 ++ concat (map (fun g => py "." ++ g) rest)
    /\ g0 ++ concat rest = body
    /\ 1 <= length g0 <= 3
    /\ Forall (fun g => length g = 3) rest.
Proof.
  intros Hne. unfold dotted. rewrite chunks3_groups3.
  assert (Hr : reversed body <> []).
  { unfold reversed. intros H. apply Hne. now rewrite <- (rev_involutive body), H. }
  destruct (chunked_reversed _ (groups3_chunked _ Hr)) as (g0 & rest & Heq & H0 & Hrest).
  exists g0, rest.
  rewrite Heq, join_cons. repeat split; auto; try lia.
  change (g0 ++ concat rest) with (concat (g0 :: rest)).
  rewrite <- Heq, concat_map_rev, concat_groups3.
  apply rev_involutive.
Qed.

(** *** Facts read off the tables *)

Lemma in_ranges_enum rs c :
  Unicode.in_ranges rs c = true -> In c (flat_map enum_range rs).
Proof.
  unfold Unicode.in_ranges. intros H.
  apply existsb_exists in H as ([lo hi] & Hin & Hc).
  unfold Unicode.in_range in Hc. cbn [fst snd] in Hc.
  apply andb_true_iff in Hc as [Hlo Hhi].
  apply N.leb_le in Hlo, Hhi.
  apply in_flat_map. exists (lo, hi). split; [assumption|].
  unfold enum_range. cbn [fst snd]. apply in_map_iff.
  exists (N.to_nat (c - lo)). split; [lia|].
  apply in_seq. lia.
Qed.

Lemma str_eqb_eq a : forall b, str_eqb a b = true -> a = b.
Proof.
  induction a as [|x a IH]; intros [|y b]; simpl; try discriminate; [reflexivity|].
  intros H. apply andb_true_iff in H as [Hx Hab].
  apply N.eqb_eq in Hx. f_equal; auto.
Qed.

(** No character that [str.isdigit] accepts has a case mapping. *)
Lemma digits_uncased c :
  Unicode.isdigit c = true ->
  Unicode.lower_char false c = [c] /\ Unicode.upper_char c = [c].
Proof.
  intros H. apply in_ranges_enum in H.
  assert (Hall : forallb (fun c => str_eqb (Unicode.lower_char false c) [c]
                                   && str_eqb (Unicode.upper_char c) [c])
                         (flat_map enum_range Unicode.digit_ranges) = true)
    by (vm_compute; reflexivity).
  rewrite forallb_forall in Hall.
  specialize (Hall c H). apply andb_true_iff in Hall as [Hl Hu].
  split; now apply str_eqb_eq.
Qed.

(** The characters the filter keeps do not depend on how a capital sigma is
    lower-cased. *)
Lemma kept_sigma_free final c :
  filter kept (Unicode.lower_char final c) = filter kept (Unicode.lower_char false c).
Proof.
  unfold Unicode.lower_char.
  destruct (c =? 0x3A3)%N; [|reflexivity].
  destruct final; vm_compute; reflexivity.
Qed.

Lemma kept_cases c : kept c = true -> Unicode.isdigit c = true \/ c = ch "k".
Proof.
  unfold kept. intros H. apply orb_true_iff in H as [H|H]; [now left|].
  right. now apply N.eqb_eq.
Qed.

Lemma ascii_digit_isdigit c : Pattern.ascii_digit c = true -> Unicode.isdigit c = true.
Proof.
  intros H. unfold Unicode.isdigit, Unicode.in_ranges, Unicode.digit_ranges.
  cbn [existsb]. apply orb_true_iff. left. exact H.
Qed.

(** *** Normalising twice *)

Lemma significant_app a b : significant (a ++ b) = significant a ++ significant b.
Proof. unfold significant, str_lower. now rewrite flat_map_app, filter_app. Qed.

Lemma significant_kept_char c : kept c = true -> significant [c] = [c].
Proof.
  intros H. unfold significant, str_lower. cbn [flat_map]. rewrite app_nil_r.
  destruct (kept_cases c H) as [Hd | ->].
  - rewrite (proj1 (digits_uncased c Hd)). cbn [filter]. now rewrite H.
  - vm_compute. reflexivity.
Qed.

Lemma significant_kept s : Forall (fun c => kept c = true) s -> significant s = s.
Proof.
  induction 1 as [|c s Hc _ IH]; [reflexivity|].
  change (c :: s) with ([c] ++ s).
  now rewrite significant_app, IH, significant_kept_char.
Qed.

Lemma significant_groups rest :
  Forall (fun c => kept c = true) (concat rest) ->
  significant (concat (map (fun g => py "." ++ g) rest)) = concat rest.
Proof.
  induction rest as [|g rest IH]; [reflexivity|].
  cbn [map concat]. intros H. apply Forall_app in H as [Hg Hrest].
  rewrite !significant_app, IH, (significant_kept g) by assumption.
  reflexivity.
Qed.

(** The check character survives [upper] followed by [lower]. *)
Lemma significant_upper c : kept c = true -> significant (str_upper [c]) = [c].
Proof.
  intros H. unfold str_upper. cbn [flat_map]. rewrite app_nil_r.
  destruct (kept_cases c H) as [Hd | ->].
  - rewrite (proj2 (digits_uncased c Hd)). now apply significant_kept_char.
  - vm_compute. reflexivity.
Qed.

Lemma significant_all_kept raw : Forall (fun c => kept c = true) (significant raw).
Proof.
  apply Forall_forall. intros c H. unfold significant in H.
  now apply filter_In in H.
Qed.

(** A string of two or more characters is its body followed by one last character. *)
Lemma body_and_last {A} (s : list A) :
  2 <= length s ->
  exists dv, last_char s = [dv] /\ s = all_but_last s ++ [dv] /\ all_but_last s <> [].
Proof.
  intros H. unfold last_char, all_but_last.
  pose proof (firstn_skipn (length s - 1) s) as Hs.
  pose proof (length_skipn (length s - 1) s) as Hl.
  pose proof (length_firstn (length s - 1) s) as Hb.
  destruct (skipn (length s - 1) s) as [|dv [|x t]]; simpl in Hl; try lia.
  exists dv. repeat split; [now symmetry|].
  intros E. rewrite E in Hb. simpl in Hb. lia.
Qed.

(** What [format_rut_lenient] returns, in terms of the significant characters. *)
Lemma format_rut_lenient_inv raw out :
  format_rut_lenient raw = Some out ->
  exists body dv,
    significant raw = body ++ [dv]
    /\ body <> []
    /\ all_but_last (significant raw) = body
    /\ last_char (significant raw) = [dv]
    /\ out = dotted body ++ py "-" ++ str_upper [dv].
Proof.
  rewrite format_rut_lenient_eq.
  destruct (length (significant raw) <? 2) eqn:Hlen; [discriminate|].
  apply Nat.ltb_ge in Hlen.
  destruct (body_and_last (significant raw) Hlen) as (dv & Hdv & Hs & Hne).
  intros [= <-]. exists (all_but_last (significant raw)), dv.
  rewrite Hdv. repeat split; auto.
Qed.

Lemma significant_output body dv :
  body <> [] ->
  Forall (fun c => kept c = true) (body ++ [dv]) ->
  significant (dotted body ++ py "-" ++ str_upper [dv]) = body ++ [dv].
Proof.
  intros Hne Hk. apply Forall_app in Hk as [Hb Hdv].
  destruct (dotted_shape body Hne) as (g0 & rest & Hd & Hcat & _ & _).
  rewrite Hd, <- Hcat in *.
  apply Forall_app in Hb as [Hg0 Hrest].
  rewrite !significant_app, (significant_kept g0), significant_groups by assumption.
  rewrite significant_upper by now inversion Hdv.
  reflexivity.
Qed.

(** C6: a string [format_rut_lenient] returned is returned unchanged when
    it is normalised again. *)
Theorem format_rut_lenient_idempotent raw out :
  format_rut_lenient raw = Some out -> format_rut_lenient out = Some out.
Proof.
  intros H.
  destruct (format_rut_lenient_inv raw out H) as (body & dv & Hs & Hne & _ & _ & Hout).
  assert (Hsig : significant out = significant raw).
  { rewrite Hout, Hs. apply significant_output; [assumption|].
    rewrite <- Hs. apply significant_all_kept. }
  rewrite format_rut_lenient_eq, Hsig, <- format_rut_lenient_eq. exact H.
Qed.

Lemma format_rut_lenient_idempotent_witness :
  format_rut_lenient (py "15.421.741-K") = Some (py "15.421.741-K").
Proof.
  apply (format_rut_lenient_idempotent (py "15421741k")).
  vm_compute; reflexivity.
Defined.

(** *** The canonical pattern *)


Lemma matches_cls_cons p r s :
  matches (Cat (Cls p) r) s -> exists c s', s = c :: s' /\ p c = true /\ matches r s'.
Proof.
  intros H. inversion H as [| |r1 r2 s1 s2 H1 H2| | | |]; subst.
  inversion H1; subst. simpl. eauto.
Qed.

Lemma matches_digits13 (d : char -> bool) g :
  1 <= length g <= 3 ->
  Forall (fun c => d c = true) g ->
  matches (Cat (Cls d) (Cat (Opt (Cls d)) (Opt (Cls d)))) g.
Proof.
  intros Hl Hd.
  destruct g as [|a [|b [|c [|x g]]]]; simpl in Hl; try lia.
  - inversion Hd; subst.
    apply (MCat _ _ [a] []); [now constructor|].
    apply (MCat _ _ [] []); apply MAltR; constructor.
  - inversion Hd as [|? ? Ha Hd1]; inversion Hd1; subst.
    apply (MCat _ _ [a] [b]); [now constructor|].
    apply (MCat _ _ [b] []); [apply MAltL; now constructor | apply MAltR; constructor].
  - inversion Hd as [|? ? Ha Hd1]; inversion Hd1 as [|? ? Hb Hd2]; inversion Hd2; subst.
    apply (MCat _ _ [a] [b; c]); [now constructor|].
    apply (MCat _ _ [b] [c]); apply MAltL; now constructor.
Qed.

Lemma matches_dot_groups (d : char -> bool) rest :
  Forall (fun g => length g = 3) rest ->
  Forall (fun c => d c = true) (concat rest) ->
  matches (Star (Cat (Cls (is_char ".")) (Cat (Cls d) (Cat (Cls d) (Cls d)))))
          (concat (map (fun g => py "." ++ g) rest)).
Proof.
  induction 1 as [|g rest Hg _ IH]; cbn [map concat]; intros Hd.
  - constructor.
  - apply Forall_app in Hd as [Hdg Hdr].
    apply MStarApp; [|now apply IH].
    destruct g as [|a [|b [|c [|x g]]]]; simpl in Hg; try lia.
    inversion Hdg as [|? ? Ha Hd1]; inversion Hd1 as [|? ? Hb Hd2]; inversion Hd2; subst.
    apply (MCat _ _ (py ".") [a; b; c]); [now constructor|].
    apply (MCat _ _ [a] [b; c]); [now constructor|].
    apply (MCat _ _ [b] [c]); now constructor.
Qed.

(** [upper] of a check character among [0-9] and [k] is one character of [[0-9K]]. *)
Lemma upper_check_char dv :
  ascii_digit dv = true \/ dv = ch "k" ->
  exists u, str_upper [dv] = [u] /\ digit_or_K u = true.
Proof.
  unfold str_upper. cbn [flat_map]. rewrite app_nil_r.
  intros [H | ->].
  - exists dv. rewrite (proj2 (digits_uncased dv (ascii_digit_isdigit dv H))).
    split; [reflexivity|]. unfold digit_or_K. now rewrite H.
  - exists (ch "K"). split; vm_compute; reflexivity.
Qed.

(** A [k] that is not the last significant character stays in the body:
    ["k1"] becomes ["k-1"], which does not start with a digit, even with [\d]
    read as every Unicode decimal digit. *)
Lemma k_in_body_not_canonical : ~ always_canonical Unicode.isdecimal (py "k1").
Proof.
  intros H. specialize (H (py "k-1") eq_refl).
  unfold canonical_rut in H.
  inversion H as [| |r1 r2 s1 s2 H1 H2 E1 E2| | | |]; subst.
  apply matches_cls_cons in H1 as (c & s' & -> & Hc & _).
  simpl in E2. injection E2 as Ec _. subst c.
  vm_compute in Hc. discriminate.
Qed.

(** C5, amended: when the significant characters before the last are digits
    of the class [\d] and the last is one of [0-9] or [k], the string returned
    matches [\d{1,3}(\.\d{3})*-[0-9K]]. *)
Theorem format_rut_lenient_canonical (d : char -> bool) raw out :
  format_rut_lenient raw = Some out ->
  Forall (fun c => d c = true) (all_but_last (significant raw)) ->
  Forall (fun c => ascii_digit c = true \/ c = ch "k") (last_char (significant raw)) ->
  matches (canonical_rut d) out.
Proof.
  intros H Hbody Hlast.
  destruct (format_rut_lenient_inv raw out H) as (body & dv & _ & Hne & Hb & Hl & ->).
  rewrite Hb in Hbody. rewrite Hl in Hlast.
  destruct (dotted_shape body Hne) as (g0 & rest & -> & Hcat & Hg0 & Hrest).
  rewrite <- Hcat in Hbody. apply Forall_app in Hbody as [Hd0 Hdr].
  destruct (upper_check_char dv) as (u & -> & Hu); [now inversion Hlast|].
  unfold canonical_rut. rewrite <- app_assoc.
  apply MCat; [now apply matches_digits13|].
  apply MCat; [now apply matches_dot_groups|].
  apply (MCat _ _ (py "-") [u]); now constructor.
Qed.

Lemma format_rut_lenient_canonical_witness :
  matches (canonical_rut ascii_digit) (py "15.421.741-K").
Proof.
  apply (format_rut_lenient_canonical ascii_digit (py "15421741-k")).
  - vm_compute; reflexivity.
  - vm_compute. repeat constructor.
  - vm_compute. constructor; [right; reflexivity | constructor].
Defined.

(** C7: the three separator styles of the same identifier normalise to the
    one canonical string. *)
Theorem format_rut_lenient_separator_styles :
  format_rut_lenient (py "15421741K") = Some (py "15.421.741-K")
  /\ format_rut_lenient (py "15.421.741-K") = Some (py "15.421.741-K")
  /\ format_rut_lenient (py "15421741-K") = Some (py "15.421.741-K").
Proof. repeat split; vm_compute; reflexivity. Qed.

(** * Further properties *)

(** ** More on the normaliser *)

Lemma upper_kept_single c :
  kept c = true ->
  exists u, str_upper [c] = [u]
            /\ (u = c /\ Unicode.isdigit c = true \/ c = ch "k" /\ u = ch "K").
Proof.
  intros H. unfold str_upper. cbn [flat_map]. rewrite app_nil_r.
  destruct (kept_cases c H) as [Hd | ->].
  - exists c. rewrite (proj2 (digits_uncased c Hd)). auto.
  - exists (ch "K"). split; [vm_compute; reflexivity | auto].
Qed.

Lemma length_concat_groups (rest : list pystr) :
  Forall (fun g => length g = 3) rest ->
  length (concat rest) = 3 * length rest
  /\ length (concat (map (fun g => py "." ++ g) rest)) = 4 * length rest.
Proof.
  induction 1 as [|g rest Hg _ [IH1 IH2]]; [split; reflexivity|].
  cbn [map concat length]. rewrite !length_app, IH1, IH2, Hg. simpl. lia.
Qed.

(** X1: the canonical string of an identifier with [n] kept characters has
    [n + 1 + (n - 2) / 3] characters: the kept ones, the dash, and a dot for
    every full group of three before the first group. *)
Theorem format_rut_lenient_length raw out :
  format_rut_lenient raw = Some out ->
  length out = length (significant raw) + 1 + (length (significant raw) - 2) / 3.
Proof.
  intros H.
  destruct (format_rut_lenient_inv raw out H) as (body & dv & Hs & Hne & _ & _ & ->).
  destruct (dotted_shape body Hne) as (g0 & rest & -> & Hcat & Hg0 & Hrest).
  destruct (upper_kept_single dv) as (u & -> & _).
  { pose proof (significant_all_kept raw) as Hk. rewrite Hs in Hk.
    apply Forall_app in Hk as [_ Hk]. now inversion Hk. }
  destruct (length_concat_groups rest Hrest) as [L1 L2].
  assert (Hn : length (significant raw) = length g0 + 3 * length rest + 1).
  { rewrite Hs, <- Hcat, !length_app, L1. simpl. unfold pystr, char in *. lia. }
  assert (Hdiv : (length g0 + 3 * length rest + 1 - 2) / 3 = length rest).
  { symmetry. apply Nat.div_unique with (r := length g0 - 1); lia. }
  rewrite Hn, Hdiv, !length_app, L2. simpl. unfold pystr, char in *. lia.
Qed.

Lemma format_rut_lenient_length_witness :
  length (py "15.421.741-K") = 9 + 1 + (9 - 2) / 3.
Proof.
  apply (format_rut_lenient_length (py "15421741K")).
  vm_compute; reflexivity.
Defined.

Lemma kept_not_separator c :
  kept c = true -> negb (is_char "." c || is_char "-" c) = true /\ c <> ch "-".
Proof.
  intros H. destruct (kept_cases c H) as [Hd | ->]; [|split; [reflexivity | discriminate]].
  split.
  - destruct (is_char "." c) eqn:E1; [apply N.eqb_eq in E1; subst; discriminate|].
    destruct (is_char "-" c) eqn:E2; [apply N.eqb_eq in E2; subst; discriminate|].
    reflexivity.
  - intros ->. discriminate.
Qed.

Lemma without_separators_kept s :
  Forall (fun c => kept c = true) s -> without_separators s = s /\ ~ In (ch "-") s.
Proof.
  induction 1 as [|c s Hc _ [IH1 IH2]]; [split; [reflexivity | intros []]|].
  destruct (kept_not_separator c Hc) as [Hn Hd].
  split.
  - unfold without_separators in *. cbn [filter]. rewrite Hn. now f_equal.
  - intros [E | E]; [now apply Hd | now apply IH2].
Qed.

Lemma without_separators_groups rest :
  Forall (fun c => kept c = true) (concat rest) ->
  without_separators (concat (map (fun g => py "." ++ g) rest)) = concat rest
  /\ ~ In (ch "-") (concat (map (fun g => py "." ++ g) rest)).
Proof.
  induction rest as [|g rest IH]; [split; [reflexivity | intros []]|].
  cbn [map concat]. intros H. apply Forall_app in H as [Hg Hrest].
  destruct (IH Hrest) as [IH1 IH2].
  destruct (without_separators_kept g Hg) as [G1 G2].
  split.
  - unfold without_separators in *. rewrite !filter_app, IH1, G1. reflexivity.
  - rewrite !in_app_iff. intros [[E | E] | E]; auto.
    destruct E as [E | []]. discriminate E.
Qed.

(** X2: the canonical string spells the kept characters in their order, the
    last one upper-cased ([k] becomes [K], a digit stays): nothing is lost
    but the separators, and its only dash stands right before its last
    character. *)
Theorem format_rut_lenient_spells_kept raw out :
  format_rut_lenient raw = Some out ->
  exists body dv u,
    significant raw = body ++ [dv]
    /\ without_separators out = body ++ [u]
    /\ (exists d, out = d ++ [ch "-"; u] /\ ~ In (ch "-") d)
    /\ (u = dv /\ Unicode.isdigit dv = true \/ dv = ch "k" /\ u = ch "K").
Proof.
  intros H.
  destruct (format_rut_lenient_inv raw out H) as (body & dv & Hs & Hne & _ & _ & ->).
  pose proof (significant_all_kept raw) as Hk. rewrite Hs in Hk.
  apply Forall_app in Hk as [Hb Hdv].
  assert (Hkdv : kept dv = true) by now inversion Hdv.
  destruct (upper_kept_single dv Hkdv) as (u & -> & Hu).
  exists body, dv, u.
  destruct (dotted_shape body Hne) as (g0 & rest & -> & Hcat & _ & _).
  rewrite <- Hcat in Hb, Hs |- *. apply Forall_app in Hb as [Hg0 Hrest].
  destruct (without_separators_kept g0 Hg0) as [G1 G2].
  destruct (without_separators_groups rest Hrest) as [R1 R2].
  assert (Hsep : negb (is_char "." u || is_char "-" u) = true).
  { destruct Hu as [[-> _] | [_ ->]]; [now apply kept_not_separator | reflexivity]. }
  repeat split; auto.
  - unfold without_separators in *. rewrite !filter_app, G1, R1.
    cbn [filter py map list_ascii_of_string]. rewrite Hsep.
    change (negb (is_char "." (N_of_ascii "-") || is_char "-" (N_of_ascii "-"))) with false.
    simpl. now rewrite <- app_assoc.
  - exists (g0 ++ concat (map (fun g => py "." ++ g) rest)). split; [reflexivity|].
    rewrite in_app_iff. tauto.
Qed.

Lemma format_rut_lenient_spells_kept_witness :
  exists body dv u,
    significant (py "15.421.741-k") = body ++ [dv]
    /\ without_separators (py "15.421.741-K") = body ++ [u]
    /\ (exists d, py "15.421.741-K" = d ++ [ch "-"; u] /\ ~ In (ch "-") d)
    /\ (u = dv /\ Unicode.isdigit dv = true \/ dv = ch "k" /\ u = ch "K").
Proof.
  apply format_rut_lenient_spells_kept. vm_compute; reflexivity.
Defined.

(** X3: the canonical string determines the kept characters: normalising it
    again works on the same kept characters, so two identifiers with the same
    canonical string have the same kept characters. *)
Theorem format_rut_lenient_injective a b out :
  format_rut_lenient a = Some out ->
  format_rut_lenient b = Some out ->
  significant out = significant a /\ significant a = significant b.
Proof.
  assert (Hround : forall raw, format_rut_lenient raw = Some out ->
                               significant out = significant raw).
  { intros raw H.
    destruct (format_rut_lenient_inv raw out H) as (body & dv & Hs & Hne & _ & _ & ->).
    rewrite Hs. apply significant_output; [assumption|].
    rewrite <- Hs. apply significant_all_kept. }
  intros Ha Hb. split; [now apply Hround|].
  now rewrite <- (Hround a Ha), <- (Hround b Hb).
Qed.

Lemma format_rut_lenient_injective_witness :
  significant (py "15.421.741-K") = significant (py "15421741K")
  /\ significant (py "15421741K") = significant (py "15 421 741 k").
Proof.
  apply format_rut_lenient_injective; vm_compute; reflexivity.
Defined.

Lemma ascii_junk_insignificant c : ascii_junk c = true -> significant [c] = [].
Proof.
  intros H.
  assert (Hall : forallb (fun c => negb (ascii_junk c) || is_empty (significant [c]))
                         (map N.of_nat (seq 0 128)) = true)
    by (vm_compute; reflexivity).
  rewrite forallb_forall in Hall.
  assert (Hin : In c (map N.of_nat (seq 0 128))).
  { apply in_map_iff. exists (N.to_nat c).
    unfold ascii_junk in H. rewrite !andb_true_iff in H.
    destruct H as [[[Hc _] _] _]. apply N.ltb_lt in Hc.
    split; [lia | apply in_seq; lia]. }
  specialize (Hall c Hin). rewrite H in Hall. simpl in Hall.
  now destruct (significant [c]).
Qed.

Lemma junk_insignificant junk :
  Forall (fun c => ascii_junk c = true) junk -> significant junk = [].
Proof.
  induction 1 as [|c junk Hc _ IH]; [reflexivity|].
  change (c :: junk) with ([c] ++ junk).
  now rewrite significant_app, IH, ascii_junk_insignificant.
Qed.

(** X4: ASCII characters other than digits and [k]/[K] (dots, dashes,
    spaces, letters...) are ignored wherever they stand, and the case of a
    [k] does not matter. *)
Theorem format_rut_lenient_ignores_junk a junk b :
  Forall (fun c => ascii_junk c = true) junk ->
  format_rut_lenient (a ++ junk ++ b) = format_rut_lenient (a ++ b)
  /\ format_rut_lenient (a ++ py "K" ++ b) = format_rut_lenient (a ++ py "k" ++ b).
Proof.
  intros Hj. rewrite !format_rut_lenient_eq, !significant_app.
  rewrite (junk_insignificant junk Hj).
  split; reflexivity.
Qed.

Lemma format_rut_lenient_ignores_junk_witness :
  format_rut_lenient (py "15" ++ py " . " ++ py "421741-K")
  = format_rut_lenient (py "15" ++ py "421741-K")
  /\ format_rut_lenient (py "15" ++ py "K" ++ py "421741-K")
     = format_rut_lenient (py "15" ++ py "k" ++ py "421741-K").
Proof.
  apply format_rut_lenient_ignores_junk. vm_compute. repeat constructor.
Defined.

(** ** The matcher against the declarative reading of a pattern *)

Lemma match_here_greedy_cons p r c s pos gs ge :
  Re.match_here (Re.Star true p :: r) (c :: s) pos gs ge =
    if p c then
      match Re.match_here (Re.Star true p :: r) s (S pos) gs ge with
      | Some m => Some m
      | None => Re.match_here r (c :: s) pos gs ge
      end
    else Re.match_here r (c :: s) pos gs ge.
Proof. reflexivity. Qed.

Lemma match_here_lazy_cons p r c s pos gs ge :
  Re.match_here (Re.Star false p :: r) (c :: s) pos gs ge =
    match Re.match_here r (c :: s) pos gs ge with
    | Some m => Some m
    | None => if p c then Re.match_here (Re.Star false p :: r) s (S pos) gs ge else None
    end.
Proof. reflexivity. Qed.

Lemma match_here_star_nil g p r pos gs ge :
  Re.match_here (Re.Star g p :: r) [] pos gs ge = Re.match_here r [] pos gs ge.
Proof. destruct g; simpl; [reflexivity|]. now destruct (Re.match_here r [] pos gs ge). Qed.

Lemma match_here_open r s pos gs ge :
  Re.match_here (Re.GroupOpen :: r) s pos gs ge = Re.match_here r s pos pos ge.
Proof. reflexivity. Qed.

Lemma match_here_close r s pos gs ge :
  Re.match_here (Re.GroupClose :: r) s pos gs ge = Re.match_here r s pos gs pos.
Proof. reflexivity. Qed.

(** Soundness, piecewise: a match of [r1 ++ r2] splits into what [r1]
    consumed and a match of [r2] on the rest. *)
Lemma match_here_split r1 : forall r2 s pos gs ge res,
  group_free r1 = true ->
  Re.match_here (r1 ++ r2) s pos gs ge = Some res ->
  exists used rest,
    s = used ++ rest
    /\ consumes r1 used
    /\ Re.match_here r2 rest (pos + length used) gs ge = Some res.
Proof.
  induction r1 as [|n r1 IH]; intros r2 s pos gs ge res Hg H.
  - exists [], s. rewrite Nat.add_0_r. repeat split; [constructor | exact H].
  - cbn [group_free forallb] in Hg. apply andb_true_iff in Hg as [Hn Hg].
    fold (group_free r1) in Hg.
    destruct n as [p | g p | |]; try discriminate; cbn [app] in H.
    + destruct s as [|c s]; [discriminate|]. simpl in H.
      destruct (p c) eqn:Hp; [|discriminate].
      destruct (IH _ _ _ _ _ _ Hg H) as (used & rest & -> & Hc & Hm).
      exists (c :: used), rest. cbn [length]. rewrite Nat.add_succ_r.
      repeat split; [now constructor | exact Hm].
    + revert pos H. induction s as [|c s IHs]; intros pos H.
      * rewrite match_here_star_nil in H.
        destruct (IH _ _ _ _ _ _ Hg H) as (used & rest & E & Hc & Hm).
        exists used, rest. repeat split; [exact E | now constructor | exact Hm].
      * assert (Hstop : Re.match_here (r1 ++ r2) (c :: s) pos gs ge = Some res ->
                        exists used rest,
                          c :: s = used ++ rest
                          /\ consumes (Re.Star g p :: r1) used
                          /\ Re.match_here r2 rest (pos + length used) gs ge = Some res).
        { intros H'. destruct (IH _ _ _ _ _ _ Hg H') as (used & rest & E & Hc & Hm).
          exists used, rest. repeat split; [exact E | now constructor | exact Hm]. }
        assert (Hstep : p c = true ->
                        Re.match_here (Re.Star g p :: r1 ++ r2) s (S pos) gs ge = Some res ->
                        exists used rest,
                          c :: s = used ++ rest
                          /\ consumes (Re.Star g p :: r1) used
                          /\ Re.match_here r2 rest (pos + length used) gs ge = Some res).
        { intros Hp H'. destruct (IHs _ H') as (used & rest & -> & Hc & Hm).
          exists (c :: used), rest. cbn [length]. rewrite Nat.add_succ_r.
          repeat split; [now constructor | exact Hm]. }
        destruct g.
        -- rewrite match_here_greedy_cons in H.
           destruct (p c) eqn:Hp; [|now apply Hstop].
           destruct (Re.match_here (Re.Star true p :: r1 ++ r2) s (S pos) gs ge) eqn:E.
           ++ apply Hstep; [reflexivity | exact H].
           ++ now apply Hstop.
        -- rewrite match_here_lazy_cons in H.
           destruct (Re.match_here (r1 ++ r2) (c :: s) pos gs ge) eqn:E.
           ++ apply Hstop. now rewrite <- H.
           ++ destruct (p c) eqn:Hp; [|discriminate]. now apply Hstep.
Qed.

Lemma match_here_sound r s pos gs ge res :
  group_free r = true ->
  Re.match_here r s pos gs ge = Some res ->
  exists used rest, s = used ++ rest /\ consumes r used.
Proof.
  intros Hg H. rewrite <- (app_nil_r r) in H.
  destruct (match_here_split r [] s pos gs ge res Hg H) as (used & rest & E & Hc & _).
  eauto.
Qed.

(** Completeness: whatever the pattern can consume at the head of a string,
    the backtracking search finds some match there. *)
Lemma match_here_complete r used :
  consumes r used ->
  forall rest pos gs ge, Re.match_here r (used ++ rest) pos gs ge <> None.
Proof.
  induction 1 as [| p r c s Hp _ IH | r s _ IH | r s _ IH
                  | g p r s _ IH | g p r c s Hp _ IH]; intros rest pos gs ge.
  - discriminate.
  - simpl. rewrite Hp. apply IH.
  - simpl. apply IH.
  - simpl. apply IH.
  - specialize (IH rest pos gs ge).
    destruct (s ++ rest) as [|c t]; [now rewrite match_here_star_nil|].
    destruct g.
    + rewrite match_here_greedy_cons. destruct (p c); [|exact IH].
      now destruct (Re.match_here (Re.Star true p :: r) t (S pos) gs ge).
    + rewrite match_here_lazy_cons.
      now destruct (Re.match_here r (c :: t) pos gs ge).
  - specialize (IH rest (S pos) gs ge). cbn [app].
    destruct g.
    + rewrite match_here_greedy_cons, Hp.
      now destruct (Re.match_here (Re.Star true p :: r) (s ++ rest) (S pos) gs ge).
    + rewrite match_here_lazy_cons, Hp.
      now destruct (Re.match_here r (c :: s ++ rest) pos gs ge).
Qed.

Lemma consumes_app r1 u1 :
  consumes r1 u1 -> forall r2 u2, consumes r2 u2 -> consumes (r1 ++ r2) (u1 ++ u2).
Proof.
  induction 1 as [| p r c s Hp _ IH | r s _ IH | r s _ IH
                  | g p r s _ IH | g p r c s Hp _ IH]; intros r2 u2 H2; cbn [app].
  - exact H2.
  - apply consumes_one; auto.
  - apply consumes_open; auto.
  - apply consumes_close; auto.
  - apply consumes_star_stop; auto.
  - apply consumes_star_step; [exact Hp|]. now apply (IH r2 u2).
Qed.

Lemma consumes_any_star g (s : pystr) : consumes [Re.Star g Re.any_char] s.
Proof.
  induction s as [|c s IH]; [repeat constructor|].
  now apply consumes_star_step.
Qed.

Lemma match_at_here r s pos m :
  Re.match_at r s pos = Some m ->
  Re.match_here r s pos 0 0 = Some (Re.m_end m, Re.g_start m, Re.g_end m)
  /\ Re.m_start m = pos.
Proof.
  unfold Re.match_at.
  destruct (Re.match_here r s pos 0 0) as [[[e gs] ge]|]; [|discriminate].
  intros [= <-]. split; reflexivity.
Qed.

Lemma search_from_eq r s pos :
  Re.search_from r s pos =
    match Re.match_at r s pos with
    | Some m => Some m
    | None => match s with [] => None | _ :: s' => Re.search_from r s' (S pos) end
    end.
Proof. destruct s; reflexivity. Qed.

Lemma search_from_sound r : forall s pos m,
  Re.search_from r s pos = Some m ->
  exists k, k <= length s /\ Re.match_at r (skipn k s) (pos + k) = Some m.
Proof.
  induction s as [|c s IH]; intros pos m H; rewrite search_from_eq in H;
    destruct (Re.match_at r _ pos) eqn:E; try discriminate.
  - exists 0. rewrite Nat.add_0_r. split; [reflexivity|]. now rewrite <- H.
  - exists 0. rewrite Nat.add_0_r. split; [simpl; lia|]. now rewrite <- H.
  - destruct (IH _ _ H) as (k & Hk & Hm).
    exists (S k). rewrite Nat.add_succ_r. split; [simpl; lia | exact Hm].
Qed.

Lemma search_from_complete r : forall s pos k,
  k <= length s ->
  Re.match_at r (skipn k s) (pos + k) <> None ->
  Re.search_from r s pos <> None.
Proof.
  induction s as [|c s IH]; intros pos k Hk Hm; rewrite search_from_eq;
    destruct (Re.match_at r _ pos) eqn:E; try discriminate.
  - destruct k; [|simpl in Hk; lia]. rewrite Nat.add_0_r in Hm. simpl in Hm. congruence.
  - destruct k as [|k]; [rewrite Nat.add_0_r in Hm; simpl in Hm; congruence|].
    apply (IH (S pos) k); [simpl in Hk; lia|].
    now rewrite Nat.add_succ_r in Hm.
Qed.

Lemma scan_eq r s pos :
  Re.scan r s pos 0 =
    match Re.match_at r s pos with
    | Some m => m :: match s with
                     | [] => []
                     | _ :: s' => Re.scan r s' (S pos) (Re.m_end m - pos - 1)
                     end
    | None => match s with [] => [] | _ :: s' => Re.scan r s' (S pos) 0 end
    end.
Proof. destruct s; reflexivity. Qed.

Lemma scan_In r : forall s pos skip m,
  In m (Re.scan r s pos skip) ->
  exists k, k <= length s /\ Re.match_at r (skipn k s) (pos + k) = Some m.
Proof.
  induction s as [|c s IH]; intros pos skip m H.
  - destruct skip; [|contradiction]. rewrite scan_eq in H.
    destruct (Re.match_at r [] pos) eqn:E; [|contradiction].
    destruct H as [<- | []]. exists 0. rewrite Nat.add_0_r. now split.
  - assert (Hrec : forall skip', In m (Re.scan r s (S pos) skip') ->
                     exists k, k <= length (c :: s)
                               /\ Re.match_at r (skipn k (c :: s)) (pos + k) = Some m).
    { intros skip' H'. destruct (IH _ _ _ H') as (k & Hk & Hm).
      exists (S k). rewrite Nat.add_succ_r. split; [simpl; lia | exact Hm]. }
    destruct skip; [|now apply Hrec in H]. rewrite scan_eq in H.
    destruct (Re.match_at r (c :: s) pos) eqn:E; [|now apply Hrec in H].
    destruct H as [<- | H]; [|now apply Hrec in H].
    exists 0. rewrite Nat.add_0_r. split; [lia | exact E].
Qed.

(** ** Tags *)

Lemma lookup_rule_preimage d : forall rs c,
  Unicode.lookup_rule rs c = Some d -> In c (flat_map (rule_preimage d) rs).
Proof.
  induction rs as [|[[[lo hi] step] img] rs IH]; intros c H; [discriminate|].
  cbn [Unicode.lookup_rule Unicode.rule_image] in H. cbn [flat_map].
  apply in_or_app.
  destruct ((lo <=? c)%N && (c <=? hi)%N && ((c - lo) mod step =? 0)%N) eqn:E.
  - left. injection H as <-.
    rewrite !andb_true_iff in E. destruct E as [[Hlo Hhi] _].
    apply N.leb_le in Hlo, Hhi. unfold rule_preimage.
    replace ((img <=? img + (c - lo)) && (img + (c - lo) <=? img + (hi - lo)))%N with true
      by (symmetry; apply andb_true_iff; split; apply N.leb_le; lia).
    left. lia.
  - right. now apply IH.
Qed.

Lemma tolower_preimage c d :
  Unicode.tolower c = d ->
  c = d \/ In c (flat_map (rule_preimage d) Unicode.lower_rules).
Proof.
  unfold Unicode.tolower.
  destruct (Unicode.lookup_rule Unicode.lower_rules c) eqn:E; intros <-; [|now left].
  right. now apply lookup_rule_preimage.
Qed.

(** Under [re.IGNORECASE] a letter of a tag name matches its two ASCII cases
    and nothing else; [<], [/] and [>] match themselves only. *)
Lemma lit_i_letter (l u : ascii) c :
  flat_map (rule_preimage (Unicode.tolower (ch l))) Unicode.lower_rules = [ch u] ->
  Unicode.tolower (ch l) = ch l ->
  Unicode.tolower (ch u) = ch l ->
  (Unicode.tolower c =? Unicode.tolower (ch l))%N = true <-> letter_ci l u c.
Proof.
  intros Hpre Hl Hu. rewrite N.eqb_eq. split.
  - intros H. apply tolower_preimage in H. rewrite Hpre in H. rewrite Hl in H.
    destruct H as [-> | [<- | []]]; [now left | now right].
  - intros [-> | ->]; congruence.
Qed.

Lemma lit_i_symbol (a : ascii) c :
  flat_map (rule_preimage (Unicode.tolower (ch a))) Unicode.lower_rules = [] ->
  Unicode.tolower (ch a) = ch a ->
  (Unicode.tolower c =? Unicode.tolower (ch a))%N = true <-> c = ch a.
Proof.
  intros Hpre Ha. rewrite N.eqb_eq. split.
  - intros H. apply tolower_preimage in H. rewrite Hpre, Ha in H.
    now destruct H as [-> | []].
  - intros ->. reflexivity.
Qed.

Lemma consumes_attrs_gt s :
  consumes [Re.Star true Re.not_gt; Re.lit_i ">"] s <->
  exists attrs, s = attrs ++ [ch ">"] /\ ~ In (ch ">") attrs.
Proof.
  assert (Hgt : forall c, (Unicode.tolower c =? Unicode.tolower (ch ">"))%N = true <-> c = ch ">").
  { intros c. apply lit_i_symbol; vm_compute; reflexivity. }
  split.
  - induction s as [|c s IH]; intros H.
    + inversion H as [| | | |g p r s0 H1|]; subst. inversion H1.
    + inversion H as [| | | |g p r s0 H1|g p r c0 s0 Hp H1]; subst.
      * inversion H1 as [|p r c0 s0 Hp H2| | | |]; subst. inversion H2; subst.
        apply Hgt in Hp. subst. exists []. split; [reflexivity | intros []].
      * destruct (IH H1) as (attrs & -> & Hn).
        exists (c :: attrs). split; [reflexivity|].
        intros [E | E]; [|now apply Hn].
        unfold Re.not_gt in Hp. rewrite <- E, N.eqb_refl in Hp. discriminate.
  - intros (attrs & -> & Hn). induction attrs as [|c attrs IH].
    + apply consumes_star_stop. apply consumes_one; [|constructor].
      now apply Hgt.
    + cbn [app]. apply consumes_star_step.
      * unfold Re.not_gt. apply negb_true_iff, N.eqb_neq.
        intros E. apply Hn. now left.
      * apply IH. intros E. apply Hn. now right.
Qed.

Lemma consumes_open_tag (l1 u1 l2 u2 : ascii) tag :
  (forall c, (Unicode.tolower c =? Unicode.tolower (ch l1))%N = true <-> letter_ci l1 u1 c) ->
  (forall c, (Unicode.tolower c =? Unicode.tolower (ch l2))%N = true <-> letter_ci l2 u2 c) ->
  consumes [Re.lit_i "<"; Re.lit_i l1; Re.lit_i l2; Re.Star true Re.not_gt; Re.lit_i ">"] tag
  <-> open_tag l1 u1 l2 u2 tag.
Proof.
  intros H1 H2.
  assert (Hlt : forall c, (Unicode.tolower c =? Unicode.tolower (ch "<"))%N = true <-> c = ch "<").
  { intros c. apply lit_i_symbol; vm_compute; reflexivity. }
  split.
  - intros H.
    inversion H as [|p r c0 s0 Hp0 Hc0| | | |]; subst. apply Hlt in Hp0. subst.
    inversion Hc0 as [|p r c1 s1 Hp1 Hc1| | | |]; subst. apply H1 in Hp1.
    inversion Hc1 as [|p r c2 s2 Hp2 Hc2| | | |]; subst. apply H2 in Hp2.
    apply consumes_attrs_gt in Hc2 as (attrs & -> & Hn).
    exists c1, c2, attrs. auto.
  - intros (c1 & c2 & attrs & -> & L1 & L2 & Hn). cbn [app].
    apply consumes_one; [now apply Hlt|].
    apply consumes_one; [now apply H1|].
    apply consumes_one; [now apply H2|].
    apply consumes_attrs_gt. eauto.
Qed.

Lemma consumes_TR_OPEN tag : consumes TR_OPEN tag <-> open_tag "t" "T" "r" "R" tag.
Proof.
  apply consumes_open_tag; intros c; apply lit_i_letter; vm_compute; reflexivity.
Qed.

Lemma consumes_TD_OPEN tag : consumes TD_OPEN tag <-> open_tag "t" "T" "d" "D" tag.
Proof.
  apply consumes_open_tag; intros c; apply lit_i_letter; vm_compute; reflexivity.
Qed.

(** ** The row test and the extractor *)

Lemma search_found r html m :
  Re.search r html = Some m ->
  exists pre rest,
    html = pre ++ rest /\ length pre = Re.m_start m
    /\ Re.match_here r rest (Re.m_start m) 0 0 = Some (Re.m_end m, Re.g_start m, Re.g_end m).
Proof.
  intros H. apply search_from_sound in H as (k & Hk & Hm).
  apply match_at_here in Hm as [Hm Hs]. simpl in Hs. subst k.
  exists (firstn (Re.m_start m) html), (skipn (Re.m_start m) html).
  rewrite firstn_skipn, length_firstn. repeat split; [lia | exact Hm].
Qed.

Lemma search_finds r pre used post :
  consumes r used -> Re.search r (pre ++ used ++ post) <> None.
Proof.
  intros Hc. apply (search_from_complete r _ 0 (length pre)).
  - rewrite length_app. lia.
  - rewrite skipn_app, skipn_all, Nat.sub_diag. simpl.
    unfold Re.match_at.
    pose proof (match_here_complete r used Hc post (length pre) 0 0) as H.
    now destruct (Re.match_here r (used ++ post) (length pre) 0 0) as [[[e gs] ge]|].
Qed.

(** The row test against the declarative reading of its pattern. *)
Lemma ensure_has_tds_spec html :
  ensure_has_tds html = true <->
  exists pre tr_tag mid td_tag post,
    html = pre ++ tr_tag ++ mid ++ td_tag ++ post
    /\ consumes TR_OPEN tr_tag
    /\ consumes TD_OPEN td_tag.
Proof.
  unfold ensure_has_tds. split.
  - destruct (Re.search HAS_TDS_RX html) as [m|] eqn:E; [intros _ | discriminate].
    apply search_found in E as (pre & rest & -> & _ & Hm).
    change HAS_TDS_RX with (TR_OPEN ++ [Re.Star false Re.any_char] ++ TD_OPEN ++ []) in Hm.
    apply match_here_split in Hm as (tr_tag & r1 & -> & Htr & Hm); [|reflexivity].
    apply match_here_split in Hm as (mid & r2 & -> & _ & Hm); [|reflexivity].
    apply match_here_split in Hm as (td_tag & post & -> & Htd & _); [|reflexivity].
    exists pre, tr_tag, mid, td_tag, post. auto.
  - intros (pre & tr_tag & mid & td_tag & post & -> & Htr & Htd).
    assert (Hc : consumes HAS_TDS_RX (tr_tag ++ mid ++ td_tag)).
    { change HAS_TDS_RX with (TR_OPEN ++ [Re.Star false Re.any_char] ++ TD_OPEN).
      apply consumes_app; [exact Htr|].
      apply consumes_app; [apply consumes_any_star | exact Htd]. }
    pose proof (search_finds HAS_TDS_RX pre (tr_tag ++ mid ++ td_tag) post Hc) as H.
    rewrite <- !app_assoc in H.
    now destruct (Re.search HAS_TDS_RX (pre ++ tr_tag ++ mid ++ td_tag ++ post)).
Qed.

(** X5: [ensure_has_tds] holds exactly when the HTML has an opening [tr] tag
    followed, anywhere later, by an opening [td] tag; the names are taken in
    either case and a tag runs to the first [>]. *)
Theorem ensure_has_tds_iff html :
  ensure_has_tds html = true <->
  exists pre tr_tag mid td_tag post,
    html = pre ++ tr_tag ++ mid ++ td_tag ++ post
    /\ open_tag "t" "T" "r" "R" tr_tag
    /\ open_tag "t" "T" "d" "D" td_tag.
Proof.
  rewrite ensure_has_tds_spec.
  split; intros (pre & tr_tag & mid & td_tag & post & E & Htr & Htd);
    exists pre, tr_tag, mid, td_tag, post;
    (split; [exact E|]); split;
    first [now apply consumes_TR_OPEN | now apply consumes_TD_OPEN].
Qed.

(** X6: text added before or after an HTML that passes [ensure_has_tds]
    never makes it fail. *)
Theorem ensure_has_tds_in_context pre html post :
  ensure_has_tds html = true -> ensure_has_tds (pre ++ html ++ post) = true.
Proof.
  rewrite !ensure_has_tds_spec.
  intros (pre' & tr_tag & mid & td_tag & post' & -> & Htr & Htd).
  exists (pre ++ pre'), tr_tag, mid, td_tag, (post' ++ post).
  rewrite <- !app_assoc. auto.
Qed.

Lemma ensure_has_tds_in_context_witness :
  ensure_has_tds (py "<html><table>" ++ py "<TR class=x><td>" ++ py "</table>") = true.
Proof.
  apply ensure_has_tds_in_context. vm_compute; reflexivity.
Defined.

Lemma fold_left_nonempty {A B} (f : list B -> A -> list B) (l : list A) :
  fold_left f l [] <> [] -> exists a, In a l.
Proof.
  destruct l as [|a l]; [intros H; now contradiction H | intros _; exists a; now left].
Qed.

(** A cell comes from a closed cell inside the first closed row. *)
Lemma cells_come_from_closed_row html :
  extract_first_tr_values html <> [] ->
  exists pre tr_tag before td_tag cell td_end after tr_end post,
    html = pre ++ tr_tag ++ before ++ td_tag ++ cell ++ td_end ++ after ++ tr_end ++ post
    /\ consumes TR_OPEN tr_tag
    /\ consumes TD_OPEN td_tag
    /\ consumes TD_CLOSE td_end
    /\ consumes TR_CLOSE tr_end.
Proof.
  unfold extract_first_tr_values.
  destruct (Re.search TR_RX html) as [m|] eqn:E; [|intros H; now contradiction H].
  intros H. apply fold_left_nonempty in H as (td & Htd).
  apply scan_In in Htd as (k & Hk & Htd).
  apply match_at_here in Htd as [Htd _].
  change TD_RX with (TD_OPEN ++ Re.GroupOpen :: [Re.Star false Re.any_char]
                             ++ Re.GroupClose :: TD_CLOSE ++ []) in Htd.
  apply match_here_split in Htd as (td_tag & r1 & Hcell & Hctd & Htd); [|reflexivity].
  rewrite match_here_open in Htd.
  apply match_here_split in Htd as (cell & r2 & -> & _ & Htd); [|reflexivity].
  rewrite match_here_close in Htd.
  apply match_here_split in Htd as (td_end & after & -> & Hcte & _); [|reflexivity].
  apply search_found in E as (pre & rest & -> & Hpre & Hm).
  change TR_RX with (TR_OPEN ++ Re.GroupOpen :: [Re.Star false Re.any_char]
                             ++ Re.GroupClose :: TR_CLOSE ++ []) in Hm.
  apply match_here_split in Hm as (tr_tag & r1 & -> & Hctr & Hm); [|reflexivity].
  rewrite match_here_open in Hm.
  apply match_here_split in Hm as (content & r2 & -> & _ & Hm); [|reflexivity].
  rewrite match_here_close in Hm.
  apply match_here_split in Hm as (tr_end & post & -> & Hcre & Hm); [|reflexivity].
  injection Hm as _ Hgs Hge.
  assert (Hcontent : Re.group1 (pre ++ tr_tag ++ content ++ tr_end ++ post) m = content).
  { unfold Re.group1, slice. rewrite <- Hgs, <- Hge, <- Hpre.
    replace (length pre + length tr_tag) with (length (pre ++ tr_tag))
      by apply length_app.
    rewrite (app_assoc pre tr_tag), skipn_app, skipn_all, Nat.sub_diag. simpl.
    replace (length (pre ++ tr_tag) + length content - length (pre ++ tr_tag))
      with (length content + 0) by lia.
    now rewrite firstn_app_2, firstn_O, app_nil_r. }
  rewrite Hcontent in Hcell.
  exists pre, tr_tag, (firstn k content), td_tag, cell, td_end, after, tr_end, post.
  split; [|auto].
  rewrite <- (firstn_skipn k content) at 1. rewrite Hcell, <- !app_assoc. reflexivity.
Qed.

(** The form the handlers' proofs use. *)
Lemma cells_need_tags html vals :
  extract_first_tr_values html = vals -> vals <> [] -> ensure_has_tds html = true.
Proof.
  intros <- H.
  destruct (cells_come_from_closed_row html H)
    as (pre & tr_tag & before & td_tag & cell & td_end & after & tr_end & post
        & -> & Htr & Htd & _ & _).
  apply ensure_has_tds_spec.
  exists pre, tr_tag, before, td_tag, (cell ++ td_end ++ after ++ tr_end ++ post). auto.
Qed.

(** X7: an HTML from which [extract_first_tr_values] gets a cell passes
    [ensure_has_tds]: the test the handlers run first never turns away a page
    the extractor could use. *)
Theorem extracted_cells_pass_ensure_has_tds html :
  extract_first_tr_values html <> [] -> ensure_has_tds html = true.
Proof.
  intros H.
  destruct (cells_come_from_closed_row html H)
    as (pre & tr_tag & before & td_tag & cell & td_end & after & tr_end & post
        & -> & Htr & Htd & _ & _).
  apply ensure_has_tds_spec.
  exists pre, tr_tag, before, td_tag, (cell ++ td_end ++ after ++ tr_end ++ post).
  repeat split; assumption.
Qed.

Lemma extracted_cells_pass_ensure_has_tds_witness :
  ensure_has_tds (py "<TR><TD>Ana</TD></TR>") = true.
Proof.
  apply extracted_cells_pass_ensure_has_tds. vm_compute. discriminate.
Defined.

(** ** More on the handlers *)

Section Fallback.

Variable w : World.
Variables url formatted : pystr.

(** The fallback of [get_rut], case by case. *)
Lemma get_rut_fallback_run inspect :
  get_rut_fallback url formatted inspect w =
    ([CallPlaywright url],
     if playwright_installed w then
       match render_page w url with
       | inl msg => inl (BrowserError msg)
       | inr html =>
           if ensure_has_tds html then
             if is_empty (extract_first_tr_values html)
             then inl (HTTPException 400 (py "La fila no contiene columnas <td>"))
             else inr (rut_payload url formatted (extract_first_tr_values html))
           else if inspect then inr (inspect_payload url formatted html)
           else inl (HTTPException 400
                        (py "No se encontraron filas <tr> con columnas <td> en la respuesta"))
       end
     else inl (RuntimeError playwright_missing)).
Proof.
  browser_cases w url; try reflexivity.
  destruct (ensure_has_tds html); simpl.
  - destruct (is_empty (extract_first_tr_values html)); reflexivity.
  - destruct inspect; reflexivity.
Qed.

Lemma get_rut_raw_fallback_run :
  get_rut_raw_fallback url w =
    ([CallPlaywright url],
     if playwright_installed w then
       match render_page w url with
       | inl msg => inl (BrowserError msg)
       | inr html => inr (raw_payload 200 url html)
       end
     else inl (RuntimeError playwright_missing)).
Proof. browser_cases w url; reflexivity. Qed.

(** The two handlers after normalisation, as one run: the direct tier's
    verdict, then the fallback when it is [None]. *)
Lemma get_rut_run rut inspect :
  format_rut_lenient rut = Some formatted ->
  url = RUT_URL formatted ->
  get_rut rut inspect w =
    match match requests_post w url with
          | inr r =>
              if accepted r then
                if is_empty (extract_first_tr_values (text r))
                then inl (HTTPException 400 sin_columnas_validas)
                else inr (Some (rut_payload url formatted (extract_first_tr_values (text r))))
              else inr None
          | inl _ => inr None
          end with
    | inl e => ([CallRequests url], inl e)
    | inr (Some p) => ([CallRequests url], inr p)
    | inr None =>
        ([CallRequests url; CallPlaywright url],
         snd (get_rut_fallback url formatted inspect w))
    end.
Proof.
  intros Hf ->. rewrite (get_rut_formatted _ _ _ Hf). unfold bind.
  pose proof (get_rut_fallback_trace w (RUT_URL formatted) formatted inspect) as Ht.
  unfold trace in Ht.
  destruct (requests_post w (RUT_URL formatted)) as [msg|r] eqn:Hr.
  - rewrite (get_rut_direct_transport_error _ _ formatted _ Hr).
    destruct (get_rut_fallback _ _ _ w) as [tr res]. simpl in *. now subst tr.
  - rewrite (get_rut_direct_response _ _ formatted _ Hr).
    destruct (accepted r); [destruct (is_empty (extract_first_tr_values (text r)))|];
      try reflexivity.
    destruct (get_rut_fallback _ _ _ w) as [tr res]. simpl in *. now subst tr.
Qed.

Lemma get_rut_raw_run rut :
  format_rut_lenient rut = Some formatted ->
  url = RUT_URL formatted ->
  get_rut_raw rut w =
    match match requests_post w url with
          | inr r => if raw_accepted r
                     then Some (raw_payload (status_code r) url (text r)) else None
          | inl _ => None
          end with
    | Some p => ([CallRequests url], inr p)
    | None => ([CallRequests url; CallPlaywright url], snd (get_rut_raw_fallback url w))
    end.
Proof.
  intros Hf ->. rewrite (get_rut_raw_formatted _ _ Hf). unfold bind.
  rewrite get_rut_raw_direct_run.
  pose proof (get_rut_raw_fallback_trace w (RUT_URL formatted)) as Ht. unfold trace in Ht.
  destruct (requests_post w (RUT_URL formatted)) as [msg|r];
    [|destruct (raw_accepted r); [reflexivity|]];
    destruct (get_rut_raw_fallback _ w) as [tr res]; simpl in *; now subst tr.
Qed.

End Fallback.

Lemma handlers_reject rut w inspect :
  format_rut_lenient rut = None ->
  get_rut rut inspect w = ([], inl (HTTPException 400 rut_invalido))
  /\ get_rut_raw rut w = ([], inl (HTTPException 400 rut_invalido)).
Proof. intros H. unfold get_rut, get_rut_raw. rewrite H. split; reflexivity. Qed.

(** X8: a handler calls no fetcher when normalisation fails; otherwise it
    calls the direct fetcher once and then, at most once, the browser
    fetcher, both on the URL of the canonical identifier: the browser tier is
    never tried first and nothing is retried. *)
Theorem handlers_call_in_order w rut inspect :
  calls_in_order rut (trace (get_rut rut inspect) w)
  /\ calls_in_order rut (trace (get_rut_raw rut) w).
Proof.
  unfold calls_in_order, trace.
  destruct (format_rut_lenient rut) as [formatted|] eqn:Hf.
  - rewrite (get_rut_run w (RUT_URL formatted) formatted rut inspect Hf eq_refl).
    rewrite (get_rut_raw_run w (RUT_URL formatted) formatted rut Hf eq_refl).
    split.
    + destruct (requests_post w (RUT_URL formatted)) as [msg|r]; [now right|].
      destruct (accepted r); [destruct (is_empty _)|]; simpl; auto.
    + destruct (requests_post w (RUT_URL formatted)) as [msg|r]; [now right|].
      destruct (raw_accepted r); simpl; auto.
  - destruct (handlers_reject rut w inspect Hf) as [-> ->]. split; reflexivity.
Qed.

(** X9: what [get_rut] can raise: a 400 with one of its four details (the
    one on rows only when [inspect] is off), the [RuntimeError] on a missing
    Playwright, or an error of the browser; never a [RequestException], and no
    [HTTPException] with another status. *)
Theorem get_rut_errors w rut inspect e :
  outcome (get_rut rut inspect) w = inl e ->
  e = HTTPException 400 rut_invalido /\ format_rut_lenient rut = None
  \/ e = HTTPException 400 sin_columnas_validas
  \/ e = HTTPException 400 (py "No se encontraron filas <tr> con columnas <td> en la respuesta")
     /\ inspect = false
  \/ e = HTTPException 400 (py "La fila no contiene columnas <td>")
  \/ e = RuntimeError playwright_missing /\ playwright_installed w = false
  \/ exists msg, e = BrowserError msg.
Proof.
  unfold outcome.
  destruct (format_rut_lenient rut) as [formatted|] eqn:Hf.
  - rewrite (get_rut_run w (RUT_URL formatted) formatted rut inspect Hf eq_refl).
    rewrite get_rut_fallback_run.
    assert (Hfb : snd ([CallPlaywright (RUT_URL formatted)],
                       if playwright_installed w then
                         match render_page w (RUT_URL formatted) with
                         | inl msg => inl (BrowserError msg)
                         | inr html =>
                             if ensure_has_tds html then
                               if is_empty (extract_first_tr_values html)
                               then inl (HTTPException 400 (py "La fila no contiene columnas <td>"))
                               else inr (rut_payload (RUT_URL formatted) formatted
                                           (extract_first_tr_values html))
                             else if inspect
                                  then inr (inspect_payload (RUT_URL formatted) formatted html)
                                  else inl (HTTPException 400
                                              (py "No se encontraron filas <tr> con columnas <td> en la respuesta"))
                         end
                       else inl (RuntimeError playwright_missing)) = inl e ->
                  e = HTTPException 400 (py "No se encontraron filas <tr> con columnas <td> en la respuesta")
                  /\ inspect = false
                  \/ e = HTTPException 400 (py "La fila no contiene columnas <td>")
                  \/ e = RuntimeError playwright_missing /\ playwright_installed w = false
                  \/ exists msg, e = BrowserError msg).
    { cbn [snd]. destruct (playwright_installed w); [|intros [= <-]; auto].
      destruct (render_page w (RUT_URL formatted)) as [msg|html]; [intros [= <-]; eauto|].
      destruct (ensure_has_tds html).
      - destruct (is_empty _); [intros [= <-]; auto | discriminate].
      - destruct inspect; [discriminate | intros [= <-]; auto]. }
    destruct (requests_post w (RUT_URL formatted)) as [msg|r]; [intros H; tauto|].
    destruct (accepted r); [destruct (is_empty _)|]; simpl.
    + intros [= <-]. auto.
    + discriminate.
    + intros H. tauto.
  - destruct (handlers_reject rut w inspect Hf) as [-> _]. intros [= <-]. auto.
Qed.

Lemma get_rut_errors_witness :
  HTTPException 400 rut_invalido = HTTPException 400 rut_invalido
  /\ format_rut_lenient (py "7") = None
  \/ HTTPException 400 rut_invalido = HTTPException 400 sin_columnas_validas
  \/ HTTPException 400 rut_invalido
     = HTTPException 400 (py "No se encontraron filas <tr> con columnas <td> en la respuesta")
     /\ false = false
  \/ HTTPException 400 rut_invalido = HTTPException 400 (py "La fila no contiene columnas <td>")
  \/ HTTPException 400 rut_invalido = RuntimeError playwright_missing /\ false = false
  \/ exists msg, HTTPException 400 rut_invalido = BrowserError msg.
Proof.
  apply (get_rut_errors (world_of (inl []) false (inl [])) (py "7") false).
  vm_compute; reflexivity.
Defined.

(** X10: [get_rut_raw] raises the 400 on the identifier, the [RuntimeError]
    on a missing Playwright or an error of the browser, and nothing else: no
    page, however empty of rows, makes it fail. *)
Theorem get_rut_raw_errors w rut e :
  outcome (get_rut_raw rut) w = inl e ->
  e = HTTPException 400 rut_invalido /\ format_rut_lenient rut = None
  \/ e = RuntimeError playwright_missing /\ playwright_installed w = false
  \/ exists msg, e = BrowserError msg.
Proof.
  unfold outcome.
  destruct (format_rut_lenient rut) as [formatted|] eqn:Hf.
  - rewrite (get_rut_raw_run w (RUT_URL formatted) formatted rut Hf eq_refl).
    rewrite get_rut_raw_fallback_run.
    assert (Hfb : snd ([CallPlaywright (RUT_URL formatted)],
                       if playwright_installed w then
                         match render_page w (RUT_URL formatted) with
                         | inl msg => inl (BrowserError msg)
                         | inr html => inr (raw_payload 200 (RUT_URL formatted) html)
                         end
                       else inl (RuntimeError playwright_missing)) = inl e ->
                  e = RuntimeError playwright_missing /\ playwright_installed w = false
                  \/ exists msg, e = BrowserError msg).
    { cbn [snd]. destruct (playwright_installed w); [|intros [= <-]; auto].
      destruct (render_page w (RUT_URL formatted)) as [msg|html];
        [intros [= <-]; eauto | discriminate]. }
    destruct (requests_post w (RUT_URL formatted)) as [msg|r]; [intros H; tauto|].
    destruct (raw_accepted r); [discriminate | intros H; tauto].
  - destruct (handlers_reject rut w false Hf) as [_ ->]. intros [= <-]. auto.
Qed.

Lemma get_rut_raw_errors_witness :
  HTTPException 400 rut_invalido = HTTPException 400 rut_invalido
  /\ format_rut_lenient (py "7") = None
  \/ HTTPException 400 rut_invalido = RuntimeError playwright_missing /\ false = false
  \/ exists msg, HTTPException 400 rut_invalido = BrowserError msg.
Proof.
  apply (get_rut_raw_errors (world_of (inl []) false (inl [])) (py "7")).
  vm_compute; reflexivity.
Defined.

(** X11: without Playwright, a request that reaches the browser tier fails
    with the [RuntimeError] that tells how to install it, in both handlers
    and whatever the direct tier answered. *)
Theorem browser_tier_needs_playwright w rut inspect :
  playwright_installed w = false ->
  (browser_invoked (trace (get_rut rut inspect) w) = true ->
   outcome (get_rut rut inspect) w = inl (RuntimeError playwright_missing))
  /\ (browser_invoked (trace (get_rut_raw rut) w) = true ->
      outcome (get_rut_raw rut) w = inl (RuntimeError playwright_missing)).
Proof.
  intros Hp. unfold trace, outcome.
  destruct (format_rut_lenient rut) as [formatted|] eqn:Hf.
  - rewrite (get_rut_run w (RUT_URL formatted) formatted rut inspect Hf eq_refl).
    rewrite (get_rut_raw_run w (RUT_URL formatted) formatted rut Hf eq_refl).
    rewrite get_rut_fallback_run, get_rut_raw_fallback_run, Hp.
    split.
    + destruct (requests_post w (RUT_URL formatted)) as [msg|r]; [reflexivity|].
      destruct (accepted r); [destruct (is_empty _)|]; simpl; auto; discriminate.
    + destruct (requests_post w (RUT_URL formatted)) as [msg|r]; [reflexivity|].
      destruct (raw_accepted r); simpl; auto; discriminate.
  - destruct (handlers_reject rut w inspect Hf) as [-> ->]. split; discriminate.
Qed.

Lemma browser_tier_needs_playwright_witness :
  outcome (get_rut (py "15421741K") false)
          (world_of (inr {| status_code := 403; text := [] |}) false (inl []))
  = inl (RuntimeError playwright_missing).
Proof.
  refine (proj1 (browser_tier_needs_playwright
                   (world_of (inr {| status_code := 403; text := [] |}) false (inl []))
                   (py "15421741K") false _) _);
    vm_compute; reflexivity.
Defined.

(** X12: [inspect] changes one thing only: the 400 raised when the rendered
    page has no [<tr>...<td>] becomes the diagnostic payload.  In every
    other case the two runs are the same, calls included. *)
Theorem inspect_changes_one_outcome w rut :
  get_rut rut true w = get_rut rut false w
  \/ exists formatted html,
       format_rut_lenient rut = Some formatted
       /\ direct_inconclusive w (RUT_URL formatted) = true
       /\ rendered_html w (RUT_URL formatted) = Some html
       /\ ensure_has_tds html = false
       /\ trace (get_rut rut true) w = trace (get_rut rut false) w
       /\ outcome (get_rut rut true) w
          = inr (inspect_payload (RUT_URL formatted) formatted html)
       /\ outcome (get_rut rut false) w
          = inl (HTTPException 400
                   (py "No se encontraron filas <tr> con columnas <td> en la respuesta")).
Proof.
  unfold trace, outcome, direct_inconclusive, rendered_html.
  destruct (format_rut_lenient rut) as [formatted|] eqn:Hf.
  - rewrite !(get_rut_run w (RUT_URL formatted) formatted rut _ Hf eq_refl).
    rewrite !get_rut_fallback_run.
    destruct (requests_post w (RUT_URL formatted)) as [msg|r] eqn:Hr;
      [|destruct (accepted r) eqn:Ha;
        [destruct (is_empty (extract_first_tr_values (text r))); now left|]];
      (destruct (playwright_installed w) eqn:Hp; [|now left]);
      (destruct (render_page w (RUT_URL formatted)) as [m|html] eqn:Hrp; [now left|]);
      (destruct (ensure_has_tds html) eqn:Hh; [now left|]);
      right; exists formatted, html; rewrite ?Hr, ?Hp, ?Hrp, ?Ha; cbn [fst snd negb]; auto 10.
  - left. now destruct (handlers_reject rut w true Hf) as [-> _],
                      (handlers_reject rut w false Hf) as [-> _].
Qed.

(** X13: whenever [get_rut_raw] goes to the browser tier, so does [get_rut]
    on the same request: the raw endpoint escalates on fewer answers of the
    direct tier, never on more. *)
Theorem raw_escalation_implies_get_rut_escalation w rut inspect :
  browser_invoked (trace (get_rut_raw rut) w) = true ->
  browser_invoked (trace (get_rut rut inspect) w) = true.
Proof.
  unfold trace.
  destruct (format_rut_lenient rut) as [formatted|] eqn:Hf.
  - rewrite (get_rut_run w (RUT_URL formatted) formatted rut inspect Hf eq_refl).
    rewrite (get_rut_raw_run w (RUT_URL formatted) formatted rut Hf eq_refl).
    destruct (requests_post w (RUT_URL formatted)) as [msg|r]; [reflexivity|].
    destruct (raw_accepted r) eqn:Hr; [discriminate|]. intros _.
    assert (Ha : accepted r = false).
    { apply accepted_false_iff. apply raw_accepted_false_iff in Hr as [Hs | Ht];
        [now left | right]. rewrite Ht. reflexivity. }
    rewrite Ha. reflexivity.
  - destruct (handlers_reject rut w inspect Hf) as [_ ->]. discriminate.
Qed.

Lemma raw_escalation_implies_get_rut_escalation_witness :
  browser_invoked
    (trace (get_rut (py "15421741K") false)
           (world_of (inr {| status_code := 200; text := [] |}) true (inr []))) = true.
Proof.
  apply raw_escalation_implies_get_rut_escalation. vm_compute; reflexivity.
Defined.

Lemma rut_payload_inj url formatted v1 v2 :
  inr (A := exn) (rut_payload url formatted v1) = inr (rut_payload url formatted v2) -> v1 = v2.
Proof.
  unfold rut_payload. intros H.
  assert (E : VList v1 = VList v2) by congruence.
  now injection E.
Qed.

(** X14: [get_rut] answers with the success payload of a cell list exactly
    when the final HTML (the direct response's when the direct tier accepts
    it, else the rendered page's) yields that list and the list is not empty. *)
Theorem get_rut_succeeds_iff w rut inspect formatted vals :
  format_rut_lenient rut = Some formatted ->
  vals <> [] ->
  outcome (get_rut rut inspect) w = inr (rut_payload (RUT_URL formatted) formatted vals)
  <-> exists html,
        final_html w (RUT_URL formatted) = Some html
        /\ extract_first_tr_values html = vals.
Proof.
  intros Hf Hne. unfold outcome, final_html, rendered_html.
  rewrite (get_rut_run w (RUT_URL formatted) formatted rut inspect Hf eq_refl).
  rewrite get_rut_fallback_run.
  assert (Hfb : snd ([CallPlaywright (RUT_URL formatted)],
                     if playwright_installed w then
                       match render_page w (RUT_URL formatted) with
                       | inl msg => inl (BrowserError msg)
                       | inr html =>
                           if ensure_has_tds html then
                             if is_empty (extract_first_tr_values html)
                             then inl (HTTPException 400 (py "La fila no contiene columnas <td>"))
                             else inr (rut_payload (RUT_URL formatted) formatted
                                         (extract_first_tr_values html))
                           else if inspect
                                then inr (inspect_payload (RUT_URL formatted) formatted html)
                                else inl (HTTPException 400
                                            (py "No se encontraron filas <tr> con columnas <td> en la respuesta"))
                       end
                     else inl (RuntimeError playwright_missing))
                = inr (rut_payload (RUT_URL formatted) formatted vals)
                <-> exists html,
                      (if playwright_installed w
                       then match render_page w (RUT_URL formatted) with
                            | inr html => Some html
                            | inl _ => None
                            end
                       else None) = Some html
                      /\ extract_first_tr_values html = vals).
  { cbn [snd]. destruct (playwright_installed w).
    2:{ split; [discriminate | intros (html & H & _); discriminate]. }
    destruct (render_page w (RUT_URL formatted)) as [msg|html].
    { split; [discriminate | intros (html & H & _); discriminate]. }
    split.
    - destruct (ensure_has_tds html).
      + destruct (extract_first_tr_values html) as [|v l] eqn:He; [discriminate|].
        intros H. apply rut_payload_inj in H. exists html. now rewrite He.
      + destruct inspect; discriminate.
    - intros (html' & [= <-] & He).
      rewrite (cells_need_tags html vals He Hne).
      rewrite He. destruct vals; [contradiction | reflexivity]. }
  destruct (requests_post w (RUT_URL formatted)) as [msg|r]; [exact Hfb|].
  destruct (accepted r); [|exact Hfb].
  split.
  - destruct (extract_first_tr_values (text r)) as [|v l] eqn:He; [discriminate|].
    simpl. intros H. apply rut_payload_inj in H. exists (text r). now rewrite He.
  - intros (html & [= <-] & He). rewrite He.
    destruct vals; [contradiction | reflexivity].
Qed.

Lemma get_rut_succeeds_iff_witness :
  outcome (get_rut (py "15421741K") false)
          (world_of (inr {| status_code := 200; text := py "<tr><td>Ana</td></tr>" |})
                    false (inl []))
  = inr (rut_payload (RUT_URL (py "15.421.741-K")) (py "15.421.741-K") [py "Ana"]).
Proof.
  refine (proj2 (get_rut_succeeds_iff _ (py "15421741K") false (py "15.421.741-K")
                   [py "Ana"] _ _) _).
  - vm_compute; reflexivity.
  - discriminate.
  - exists (py "<tr><td>Ana</td></tr>"). split; vm_compute; reflexivity.
Defined.

(** The 400 on the identifier is raised before anything is fetched. *)
Lemma rut_invalido_means_rejected w rut inspect :
  (outcome (get_rut rut inspect) w = inl (HTTPException 400 rut_invalido)
   -> format_rut_lenient rut = None)
  /\ (outcome (get_rut_raw rut) w = inl (HTTPException 400 rut_invalido)
      -> format_rut_lenient rut = None).
Proof.
  unfold outcome.
  destruct (format_rut_lenient rut) as [formatted|] eqn:Hf; [|split; reflexivity].
  rewrite (get_rut_run w (RUT_URL formatted) formatted rut inspect Hf eq_refl).
  rewrite (get_rut_raw_run w (RUT_URL formatted) formatted rut Hf eq_refl).
  rewrite get_rut_fallback_run, get_rut_raw_fallback_run. cbn [snd].
  split.
  - destruct (requests_post w (RUT_URL formatted)) as [msg|r];
      [|destruct (accepted r);
        [destruct (is_empty (extract_first_tr_values (text r))); simpl;
         [intros H; vm_compute in H; discriminate | discriminate]|]];
      simpl;
      (destruct (playwright_installed w); [|discriminate]);
      (destruct (render_page w (RUT_URL formatted)) as [m|html]; [discriminate|]);
      (destruct (ensure_has_tds html);
       [destruct (is_empty (extract_first_tr_values html)) | destruct inspect]);
      try discriminate; intros H; vm_compute in H; discriminate.
  - destruct (requests_post w (RUT_URL formatted)) as [msg|r];
      [|destruct (raw_accepted r); [discriminate|]];
      simpl;
      (destruct (playwright_installed w); [|discriminate]);
      (destruct (render_page w (RUT_URL formatted)) as [m|html]; discriminate).
Qed.

(** X15: the 400 ["RUT inválido"] is raised exactly for identifiers with
    fewer than two kept characters (digits and [k], after lower-casing), by
    both handlers, and then before any fetch. *)
Theorem invalid_identifier_iff w rut inspect :
  (length (significant rut) < 2 <->
   outcome (get_rut rut inspect) w = inl (HTTPException 400 rut_invalido))
  /\ (length (significant rut) < 2 <->
      outcome (get_rut_raw rut) w = inl (HTTPException 400 rut_invalido))
  /\ (length (significant rut) < 2 ->
      trace (get_rut rut inspect) w = [] /\ trace (get_rut_raw rut) w = []).
Proof.
  assert (Hnone : length (significant rut) < 2 <-> format_rut_lenient rut = None).
  { rewrite format_rut_lenient_eq.
    destruct (length (significant rut) <? 2) eqn:E.
    - apply Nat.ltb_lt in E. tauto.
    - apply Nat.ltb_ge in E. split; [lia | discriminate]. }
  rewrite !Hnone.
  split; [|split].
  - split.
    + intros H. unfold outcome. now destruct (handlers_reject rut w inspect H) as [-> _].
    + apply (rut_invalido_means_rejected w rut inspect).
  - split.
    + intros H. unfold outcome. now destruct (handlers_reject rut w inspect H) as [_ ->].
    + apply (rut_invalido_means_rejected w rut inspect).
  - intros H. unfold trace. now destruct (handlers_reject rut w inspect H) as [-> ->].
Qed.

(** ** More on the record mapper *)

(** X16: whatever the number of cells, the record holds the first five cells
    and only them, in their order, under keys that are all different: no
    cell overwrites another and the record never has more than five entries. *)
Theorem map_values_holds_first_five (values : list pystr) :
  map snd (map_values values) = firstn 5 values
  /\ NoDup (map fst (map_values values))
  /\ length (map_values values) = Nat.min 5 (length values).
Proof.
  destruct values as [|a [|b [|c [|d [|e rest]]]]];
    try rewrite map_values_five;
    (split; [reflexivity|]); (split; [|reflexivity]);
    vm_compute; repeat constructor; simpl; intuition discriminate.
Qed.

(** ** What the extractor leaves in a cell *)

Lemma match_here_ge r : forall s pos gs ge e gs' ge',
  Re.match_here r s pos gs ge = Some (e, gs', ge') -> pos <= e.
Proof.
  induction r as [|n r IH]; intros s pos gs ge e gs' ge' H.
  - simpl in H. injection H as <- _ _. lia.
  - destruct n as [p | g p | |].
    + destruct s as [|c s]; [discriminate|]. simpl in H.
      destruct (p c); [|discriminate]. apply IH in H. lia.
    + revert pos H. induction s as [|c s IHs]; intros pos H.
      * rewrite match_here_star_nil in H. now apply IH in H.
      * destruct g.
        -- rewrite match_here_greedy_cons in H.
           destruct (p c); [|now apply IH in H].
           destruct (Re.match_here (Re.Star true p :: r) s (S pos) gs ge) eqn:E.
           ++ injection H as ->. apply IHs in E. lia.
           ++ now apply IH in H.
        -- rewrite match_here_lazy_cons in H.
           destruct (Re.match_here r (c :: s) pos gs ge) eqn:E.
           ++ injection H as ->. now apply IH in E.
           ++ destruct (p c); [|discriminate]. apply IHs in H. lia.
    + rewrite match_here_open in H. now apply IH in H.
    + rewrite match_here_close in H. now apply IH in H.
Qed.

Lemma match_at_bounds r s pos m :
  Re.match_at r s pos = Some m -> Re.m_start m = pos /\ pos <= Re.m_end m.
Proof.
  intros H. apply match_at_here in H as [H Hs]. split; [exact Hs|].
  now apply match_here_ge in H.
Qed.

Lemma slice_tail {A} (l : list A) prev : slice l prev (length l) = skipn prev l.
Proof.
  unfold slice. apply firstn_all2. rewrite length_skipn. lia.
Qed.

Lemma slice_pre {A} (pre s : list A) prev :
  slice (pre ++ s) prev (length pre) = skipn prev pre.
Proof.
  unfold slice. rewrite skipn_app, firstn_app, length_skipn.
  rewrite firstn_all2 by (rewrite length_skipn; lia).
  replace (length pre - prev - (length pre - prev)) with 0 by lia.
  now rewrite firstn_O, app_nil_r.
Qed.

(** [re.sub] through positions and slices is the walk along the string. *)
Lemma sub_from_walk r repl : forall s pre skip prev,
  prev = length pre + skip \/ skip = 0 /\ prev <= length pre ->
  Re.sub_from (Re.scan r s (length pre) skip) repl (pre ++ s) prev
  = skipn prev pre ++ sub_walk r repl s (length pre) skip.
Proof.
  induction s as [|c s IH]; intros pre skip prev Hprev.
  - rewrite app_nil_r. destruct skip as [|k].
    + rewrite scan_eq. cbn [sub_walk].
      destruct (Re.match_at r [] (length pre)) as [m|] eqn:E.
      * apply match_at_bounds in E as [Hs He].
        cbn [Re.sub_from]. rewrite Hs, slice_tail.
        unfold slice at 1. replace (length pre - Re.m_end m) with 0 by lia.
        now rewrite firstn_O.
      * cbn [Re.sub_from]. now rewrite slice_tail, app_nil_r.
    + cbn [Re.scan Re.sub_from sub_walk]. now rewrite slice_tail, app_nil_r.
  - assert (Hwhole : pre ++ c :: s = (pre ++ [c]) ++ s) by now rewrite <- app_assoc.
    assert (Hlen : length (pre ++ [c]) = S (length pre)) by (rewrite length_app; simpl; lia).
    destruct skip as [|k].
    + assert (Hle : prev <= length pre) by lia.
      rewrite scan_eq. cbn [sub_walk].
      destruct (Re.match_at r (c :: s) (length pre)) as [m|] eqn:E.
      * apply match_at_bounds in E as [Hs He].
        cbn [Re.sub_from]. rewrite Hs, slice_pre. f_equal. f_equal.
        rewrite Hwhole, <- Hlen.
        rewrite IH by (rewrite Hlen; lia).
        destruct (Re.m_end m - length pre =? 0) eqn:Ez.
        -- apply Nat.eqb_eq in Ez. replace (Re.m_end m) with (length pre) by lia.
           rewrite skipn_app, skipn_all, Nat.sub_diag. reflexivity.
        -- apply Nat.eqb_neq in Ez. rewrite skipn_all2 by (rewrite Hlen; lia). reflexivity.
      * rewrite Hwhole, <- Hlen. rewrite IH by (rewrite Hlen; lia).
        rewrite skipn_app. replace (prev - length pre) with 0 by lia.
        cbn [skipn]. now rewrite <- app_assoc.
    + cbn [Re.scan sub_walk]. rewrite Hwhole, <- Hlen.
      rewrite IH by (rewrite Hlen; lia).
      rewrite !skipn_all2 by (rewrite ?Hlen; lia). reflexivity.
Qed.

Lemma sub_is_walk r repl s : Re.sub r repl s = sub_walk r repl s 0 0.
Proof.
  unfold Re.sub, Re.finditer.
  apply (sub_from_walk r repl s [] 0 0). right. split; [reflexivity | simpl; lia].
Qed.

Lemma match_here_one_cons p r c s pos gs ge :
  Re.match_here (Re.One p :: r) (c :: s) pos gs ge =
    if p c then Re.match_here r s (S pos) gs ge else None.
Proof. reflexivity. Qed.

Lemma match_here_greedy_run p : forall s pos gs ge,
  Re.match_here [Re.Star true p] s pos gs ge = Some (pos + run_length p s, gs, ge).
Proof.
  induction s as [|c s IH]; intros pos gs ge.
  - simpl. now rewrite Nat.add_0_r.
  - rewrite match_here_greedy_cons. cbn [run_length].
    destruct (p c); [|simpl; now rewrite Nat.add_0_r].
    rewrite IH. now rewrite Nat.add_succ_r.
Qed.

(** [\s+] matches at a whitespace character, and then the whole run. *)
Lemma spaces_match_at s pos :
  Re.match_at SPACES_RX s pos =
    match s with
    | c :: s' =>
        if Unicode.isspace c
        then Some {| Re.m_start := pos; Re.m_end := S pos + run_length Unicode.isspace s';
                     Re.g_start := 0; Re.g_end := 0 |}
        else None
    | [] => None
    end.
Proof.
  unfold Re.match_at, SPACES_RX. destruct s as [|c s]; [reflexivity|].
  rewrite match_here_one_cons. destruct (Unicode.isspace c); [|reflexivity].
  now rewrite (match_here_greedy_run Unicode.isspace s (S pos) 0 0).
Qed.

Lemma spaces_walk_skip repl : forall s pos skip,
  sub_walk SPACES_RX repl s pos skip
  = sub_walk SPACES_RX repl (skipn skip s) (pos + skip) 0.
Proof.
  induction s as [|c s IH]; intros pos skip.
  - destruct skip; [now rewrite Nat.add_0_r|].
    cbn [sub_walk skipn]. now rewrite spaces_match_at.
  - destruct skip as [|k]; [now rewrite Nat.add_0_r|].
    cbn [sub_walk skipn]. rewrite IH. now rewrite Nat.add_succ_r.
Qed.

Lemma run_length_rest p s :
  match skipn (run_length p s) s with
  | [] => True
  | d :: _ => p d = false
  end.
Proof.
  induction s as [|c s IH]; [exact I|].
  cbn [run_length]. destruct (p c) eqn:E; [exact IH | exact E].
Qed.

Lemma run_length_le p s : run_length p s <= length s.
Proof.
  induction s as [|c s IH]; [reflexivity|].
  cbn [run_length]. destruct (p c); simpl; lia.
Qed.

(** After [re.sub(r"\s+", " ", ...)] whitespace is single spaces; the result
    starts with a whitespace character only if the text does. *)
Lemma spaces_walk_single n : forall s pos,
  length s <= n ->
  single_spaced (sub_walk SPACES_RX (py " ") s pos 0) = true
  /\ match s with
     | [] => sub_walk SPACES_RX (py " ") s pos 0 = []
     | d :: _ =>
         Unicode.isspace d = false ->
         exists t, sub_walk SPACES_RX (py " ") s pos 0 = d :: t
     end.
Proof.
  induction n as [|n IH]; intros s pos Hn.
  - destruct s; [|simpl in Hn; lia]. cbn [sub_walk]. rewrite spaces_match_at. now split.
  - destruct s as [|c s]; [cbn [sub_walk]; rewrite spaces_match_at; now split|].
    cbn [sub_walk]. rewrite spaces_match_at.
    destruct (Unicode.isspace c) eqn:Ec.
    + split; [|discriminate].
      cbn [Re.m_end]. replace (S pos + run_length Unicode.isspace s - pos =? 0) with false
        by (symmetry; apply Nat.eqb_neq; lia).
      replace (S pos + run_length Unicode.isspace s - pos - 1)
        with (run_length Unicode.isspace s) by lia.
      rewrite spaces_walk_skip.
      pose proof (run_length_rest Unicode.isspace s) as Hrest.
      pose proof (run_length_le Unicode.isspace s) as Hle.
      assert (Hlen : length (skipn (run_length Unicode.isspace s) s) <= n).
      { rewrite length_skipn. simpl in Hn. lia. }
      destruct (IH (skipn (run_length Unicode.isspace s) s)
                   (S pos + run_length Unicode.isspace s) Hlen) as [Hs Hh].
      destruct (skipn (run_length Unicode.isspace s) s) as [|d t].
      * rewrite Hh. reflexivity.
      * destruct (Hh Hrest) as (t' & Ht). rewrite Ht in Hs |- *.
        change (py " " ++ [] ++ d :: t') with (32%N :: d :: t').
        cbn [single_spaced] in Hs |- *. rewrite Hrest in Hs |- *.
        exact Hs.
    + simpl in Hn. destruct (IH s (S pos)) as [Hs _]; [lia|].
      split; [|intros _; eauto].
      cbn [single_spaced]. rewrite Ec. exact Hs.
Qed.

Lemma single_spaced_tail c s : single_spaced (c :: s) = true -> single_spaced s = true.
Proof. cbn [single_spaced]. intros H. now apply andb_true_iff in H. Qed.

Lemma single_spaced_prefix a : forall b, single_spaced (a ++ b) = true -> single_spaced a = true.
Proof.
  induction a as [|c a IH]; intros b H; [reflexivity|].
  cbn [app single_spaced] in H |- *.
  apply andb_true_iff in H as [Hc Ha]. rewrite (IH b Ha), andb_true_r.
  destruct (Unicode.isspace c); [|reflexivity].
  apply andb_true_iff in Hc as [H32 Hnext]. rewrite H32.
  destruct a as [|d a]; [reflexivity | exact Hnext].
Qed.

Lemma lstrip_spec s :
  exists pre, s = pre ++ lstrip s
              /\ match lstrip s with [] => True | d :: _ => Unicode.isspace d = false end.
Proof.
  induction s as [|c s (pre & E & H)].
  - exists []. now split.
  - cbn [lstrip]. destruct (Unicode.isspace c) eqn:Ec.
    + exists (c :: pre). split; [simpl; now f_equal | exact H].
    + exists []. split; [reflexivity | exact Ec].
Qed.

(** [s.strip()] is a piece of [s] with no whitespace at either end. *)
Lemma strip_spec s :
  exists pre post,
    s = pre ++ strip s ++ post
    /\ Unicode.isspace (hd 0%N (strip s)) = false
    /\ Unicode.isspace (last (strip s) 0%N) = false.
Proof.
  unfold strip.
  destruct (lstrip_spec s) as (pre & Es & Hhd).
  destruct (lstrip_spec (rev (lstrip s))) as (post & Er & Hlast).
  set (t := lstrip s) in *. set (u := lstrip (rev t)) in *.
  assert (Et : t = rev u ++ rev post).
  { rewrite <- rev_app_distr, <- Er. now rewrite rev_involutive. }
  exists pre, (rev post). split; [now rewrite <- Et|]. split.
  - destruct (rev u) as [|d v] eqn:Eu; [reflexivity|].
    rewrite Et in Hhd. exact Hhd.
  - destruct u as [|d v]; [reflexivity|].
    cbn [rev]. now rewrite last_last.
Qed.

Lemma clean_cell_spec txt :
  Unicode.isspace (hd 0%N (clean_cell txt)) = false
  /\ Unicode.isspace (last (clean_cell txt) 0%N) = false
  /\ single_spaced (clean_cell txt) = true.
Proof.
  unfold clean_cell.
  set (w := Re.sub SPACES_RX (py " ") _).
  destruct (strip_spec w) as (pre & post & Ew & Hhd & Hlast).
  repeat split; [exact Hhd | exact Hlast |].
  assert (Hw : single_spaced w = true).
  { unfold w. rewrite sub_is_walk. now apply (spaces_walk_single _ _ 0 (le_n _)). }
  rewrite Ew in Hw.
  assert (Hsuf : forall a b, single_spaced (a ++ b) = true -> single_spaced b = true).
  { induction a as [|c a IH]; intros b H; [exact H|].
    apply IH. now apply single_spaced_tail in H. }
  apply Hsuf in Hw. now apply single_spaced_prefix in Hw.
Qed.

Lemma extracted_from_cells (tds : list Re.span) content : forall acc v,
  In v (fold_left
          (fun values td =>
             let clean := clean_cell (Re.group1 content td) in
             if is_empty clean then values else values ++ [clean])
          tds acc) ->
  In v acc \/ exists txt, v = clean_cell txt /\ v <> [].
Proof.
  induction tds as [|td tds IH]; intros acc v H; [now left|].
  cbn [fold_left] in H. apply IH in H as [H | H]; [|now right].
  cbv zeta in H.
  destruct (clean_cell (Re.group1 content td)) as [|c t] eqn:E; [now left|].
  cbn [is_empty] in H. apply in_app_iff in H as [H | [<- | []]]; [now left|].
  right. exists (Re.group1 content td). split; [now symmetry | discriminate].
Qed.

(** X17: every cell [extract_first_tr_values] returns is non-empty, neither
    starts nor ends with whitespace, and holds no whitespace but single
    U+0020 characters: line breaks, tabs, no-break spaces and runs of blanks
    inside a cell all come out as one space. *)
Theorem extracted_cells_are_clean html v :
  In v (extract_first_tr_values html) ->
  v <> []
  /\ Unicode.isspace (hd 0%N v) = false
  /\ Unicode.isspace (last v 0%N) = false
  /\ single_spaced v = true.
Proof.
  unfold extract_first_tr_values.
  destruct (Re.search TR_RX html) as [m|]; [|intros []].
  intros H. apply extracted_from_cells in H as [[] | (txt & -> & Hne)].
  split; [exact Hne | apply clean_cell_spec].
Qed.

Lemma extracted_cells_are_clean_witness :
  py "Ana Paz" <> []
  /\ Unicode.isspace (hd 0%N (py "Ana Paz")) = false
  /\ Unicode.isspace (last (py "Ana Paz") 0%N) = false
  /\ single_spaced (py "Ana Paz") = true.
Proof.
  apply (extracted_cells_are_clean
           (py "<tr><td>  Ana" ++ [0xA0%N; 10%N; 9%N] ++ py "Paz </td></tr>")).
  vm_compute. now left.
Defined.

(** ** Where cells come from *)

Lemma consumes_close_tag (l1 u1 l2 u2 : ascii) tag :
  (forall c, (Unicode.tolower c =? Unicode.tolower (ch l1))%N = true <-> letter_ci l1 u1 c) ->
  (forall c, (Unicode.tolower c =? Unicode.tolower (ch l2))%N = true <-> letter_ci l2 u2 c) ->
  consumes [Re.lit_i "<"; Re.lit_i "/"; Re.lit_i l1; Re.lit_i l2; Re.lit_i ">"] tag ->
  close_tag l1 u1 l2 u2 tag.
Proof.
  intros H1 H2 H.
  assert (Hlt : forall c, (Unicode.tolower c =? Unicode.tolower (ch "<"))%N = true <-> c = ch "<")
    by (intros c; apply lit_i_symbol; vm_compute; reflexivity).
  assert (Hsl : forall c, (Unicode.tolower c =? Unicode.tolower (ch "/"))%N = true <-> c = ch "/")
    by (intros c; apply lit_i_symbol; vm_compute; reflexivity).
  assert (Hgt : forall c, (Unicode.tolower c =? Unicode.tolower (ch ">"))%N = true <-> c = ch ">")
    by (intros c; apply lit_i_symbol; vm_compute; reflexivity).
  inversion H as [|p r c0 s0 Hp0 Hc0| | | |]; subst. apply Hlt in Hp0. subst.
  inversion Hc0 as [|p r c1 s1 Hp1 Hc1| | | |]; subst. apply Hsl in Hp1. subst.
  inversion Hc1 as [|p r c2 s2 Hp2 Hc2| | | |]; subst. apply H1 in Hp2.
  inversion Hc2 as [|p r c3 s3 Hp3 Hc3| | | |]; subst. apply H2 in Hp3.
  inversion Hc3 as [|p r c4 s4 Hp4 Hc4| | | |]; subst. apply Hgt in Hp4. subst.
  inversion Hc4; subst.
  exists c2, c3. auto.
Qed.

(** X18: cells only come from a closed cell inside a closed row: an HTML
    that yields a cell has an opening [tr] tag, then an opening [td] tag, a
    closing [</td>] and a closing [</tr>], in this order, the names in either
    case.  A row or a cell left open yields nothing. *)
Theorem extracted_cells_need_closed_row html :
  extract_first_tr_values html <> [] ->
  exists pre tr_tag before td_tag cell td_end after tr_end post,
    html = pre ++ tr_tag ++ before ++ td_tag ++ cell ++ td_end ++ after ++ tr_end ++ post
    /\ open_tag "t" "T" "r" "R" tr_tag
    /\ open_tag "t" "T" "d" "D" td_tag
    /\ close_tag "t" "T" "d" "D" td_end
    /\ close_tag "t" "T" "r" "R" tr_end.
Proof.
  intros H.
  destruct (cells_come_from_closed_row html H)
    as (pre & tr_tag & before & td_tag & cell & td_end & after & tr_end & post
        & E & Htr & Htd & Htde & Htre).
  exists pre, tr_tag, before, td_tag, cell, td_end, after, tr_end, post.
  split; [exact E|].
  split; [now apply consumes_TR_OPEN|]. split; [now apply consumes_TD_OPEN|].
  split; [apply (consumes_close_tag "t" "T" "d" "D") in Htde
         | apply (consumes_close_tag "t" "T" "r" "R") in Htre];
    trivial; intros c; apply lit_i_letter; vm_compute; reflexivity.
Qed.

Lemma extracted_cells_need_closed_row_witness :
  exists pre tr_tag before td_tag cell td_end after tr_end post,
    py "<table><TR><td>Ana</td></tr>"
    = pre ++ tr_tag ++ before ++ td_tag ++ cell ++ td_end ++ after ++ tr_end ++ post
    /\ open_tag "t" "T" "r" "R" tr_tag
    /\ open_tag "t" "T" "d" "D" td_tag
    /\ close_tag "t" "T" "d" "D" td_end
    /\ close_tag "t" "T" "r" "R" tr_end.
Proof.
  apply extracted_cells_need_closed_row. vm_compute. discriminate.
Defined.
